(** * The weather bar of lovelace-hourly-weather: [src/weather-bar.ts]

    A shallow embedding of the [WeatherBar] component: its [render] method
    (condition-bar layout, axis blocks, colour overrides), the two private
    helpers [getColorStyles] and [getWindBarb], and the [update] hook that
    rebinds the tooltips.

    Conventions of the embedding.
    - A JavaScript value that may be [undefined] (the result of indexing an
      object or an array) is an [option]; [None] is [undefined].  A template
      hole that receives [null] is also [None].
    - The objects used as tables ([ICONS], [labels]) have their own keys,
      which hold strings, and the members they inherit from their prototype
      chain; [o[key]] finds both.
    - Durations and the label spacing are JavaScript numbers that hold
      integers, given as [Z].  The cursor of the condition bar is a double:
      its additions round to 53 significant bits and overflow to the
      infinities, and [String(...)] prints the exact decimal digits up to
      2^53.
    - The raw wind measurements and the temperature are never computed with;
      their type [number] and its string conversion are parameters.
    - A statement that throws makes the enclosing method return [Throw]. *)

From Equations Require Import Equations.
From stdpp Require Import gmap strings list pretty.

(** ** JavaScript primitives used by the component *)

Module JS.

(** Completion of a method: a value, or an exception thrown on the way. *)
Inductive error := TypeError.

Inductive result (A : Type) :=
  | Ok (a : A)
  | Throw (e : error).
Arguments Ok {A} a.
Arguments Throw {A} e.

Definition bind {A B} (k : A → result B) (r : result A) : result B :=
  match r with
  | Ok a => k a
  | Throw e => Throw e
  end.

(** [const { ... } = v]: destructuring [undefined] throws a [TypeError]. *)
Definition destructure {A} (v : option A) : result A :=
  match v with
  | Some a => Ok a
  | None => Throw TypeError
  end.

(** The doubles that the cursor of the condition bar can hold: an integer,
    an infinity or [NaN]. *)
Inductive num :=
  | Fin (z : Z)
  | PInf
  | NInf
  | NaN.

(** The double nearest to the integer [z] (ties to the even significand):
    [z] itself up to 2^53 in magnitude, beyond that the nearest multiple of
    the power of two that leaves 53 significant bits, and an infinity from
    2^1024 on. *)
Definition round (z : Z) : num :=
  let m := Z.abs z in
  if (m <=? 2 ^ 53)%Z then Fin z
  else
    let e := (Z.log2 m - 52)%Z in
    let q := (m / 2 ^ e)%Z in
    let r := (m `mod` 2 ^ e)%Z in
    let half := (2 ^ (e - 1))%Z in
    let q' := if (r <? half)%Z then q
              else if (half <? r)%Z then (q + 1)%Z
              else if Z.even q then q else (q + 1)%Z in
    let v := (q' * 2 ^ e)%Z in
    if (2 ^ 1024 <=? v)%Z then (if (0 <? z)%Z then PInf else NInf)
    else Fin (Z.sgn z * v).

(** [a + b] on these doubles: the exact sum, rounded. *)
Definition add (a b : num) : num :=
  match a, b with
  | NaN, _ | _, NaN => NaN
  | PInf, NInf | NInf, PInf => NaN
  | PInf, _ | _, PInf => PInf
  | NInf, _ | _, NInf => NInf
  | Fin x, Fin y => round (x + y)
  end.

(** [String(n)]: the decimal digits of an integer up to 2^53 in magnitude.
    Beyond that JavaScript prints the shortest digits that identify the
    double, filled up with zeros, and from 1e21 on in exponent notation: a
    function of the runtime that is left as the parameter
    [large_toString]. *)
Definition String_ (large_toString : Z → string) (n : num) : string :=
  match n with
  | Fin z => if (Z.abs z <=? 2 ^ 53)%Z then pretty z else large_toString z
  | PInf => "Infinity"
  | NInf => "-Infinity"
  | NaN => "NaN"
  end.

(** What a property of one of the table objects holds: a string, or a member
    that is not a string (a function or an object inherited from the
    prototype), given by its string conversion. *)
Inductive value :=
  | Str (s : string)
  | Other (text : string).

(** A table object: its own keys, and the members found further up its
    prototype chain. *)
Record object := {
  own : gmap string string;
  inherited : gmap string value }.

(** [o[key]]: the own property, else the inherited member, else
    [undefined]. *)
Definition get (o : object) (key : string) : option value :=
  match own o !! key with
  | Some s => Some (Str s)
  | None => inherited o !! key
  end.

(** String conversion of an operand of [+] and of a template literal. *)
Definition ToString (v : option value) : string :=
  match v with
  | Some (Str s) => s
  | Some (Other text) => text
  | None => "undefined"
  end.

(** [a % b] on integer-valued numbers: the remainder takes the sign of the
    dividend, and is [NaN] ([None]) when the divisor is zero. *)
Definition rem (a b : Z) : option Z :=
  if decide (b = 0%Z) then None else Some (Z.rem a b).

(** [x !== 0], where [x] may be [NaN]: [NaN !== 0] is true. *)
Definition strict_ne_zero (x : option Z) : bool :=
  match x with
  | Some r => negb (r =? 0)%Z
  | None => true
  end.

#[global] Instance value_eq_dec : EqDecision value.
Proof. solve_decision. Defined.

(** [v === s] for a string [s]: only the same string is strictly equal to
    it, neither [undefined] nor a member that is not a string. *)
Definition strict_eq (v : option value) (s : string) : bool :=
  bool_decide (v = Some (Str s)).

(** [Array.prototype.join]. *)
Fixpoint join (sep : string) (l : list string) : string :=
  match l with
  | [] => ""
  | [x] => x
  | x :: rest => x +:+ sep +:+ join sep rest
  end.

End JS.

#[global] Instance result_bind : MBind JS.result := @JS.bind.

(** [o !! key] is the property access [o[key]]. *)
#[global] Instance object_lookup : Lookup string JS.value JS.object :=
  λ key o, JS.get o key.

(** ** Data model ([src/types.ts] is not part of the sources) *)

(** Modelled from the spec: the type [ConditionSpan] of [./types], a pair
    (conditionKey: string, durationUnits: integer).  The duration is a
    double that holds the integer. *)
Abbreviation ConditionSpan := (string * Z)%type.

(** Modelled from the spec: the type [ColorMap] of [./types], a mapping from
    condition key to CSS colour string.  The code reads it through [size] and
    [entries()], so it is a JavaScript [Map]: its entries in insertion
    order. *)
Abbreviation ColorMap := (list (string * string)).

(** The object literal [{ gridColumnStart, gridColumnEnd }] given to
    [styleMap]. *)
Record BarStyles := {
  gridColumnStart : string;
  gridColumnEnd : string }.

(** The child of a condition-bar segment: the icon span or the label span. *)
Inductive ConditionChild :=
  | ConditionIcon (icon : string)
  | ConditionLabel (label : option JS.value).

(** One [<div class=... style=... data-tippy-content=...>] of the bar. *)
Record ConditionBar := {
  class_ : string;
  style : BarStyles;
  data_tippy_content : option JS.value;
  child : ConditionChild }.

(** ** The axis loop header: [for (let i = 1; i < n; i += 2)]

    [for_axis body n i acc] runs the loop from the current index [i] with the
    blocks pushed so far in [acc]; an exception thrown by the body leaves the
    loop. *)
Equations for_axis {A} (body : nat → JS.result A) (n i : nat) (acc : list A)
  : JS.result (list A) by wf (n - i)%nat lt :=
for_axis body n i acc with decide (i < n)%nat := {
  | right _ => JS.Ok acc
  | left _ with body i := {
    | JS.Throw e => JS.Throw e
    | JS.Ok b => for_axis body n (i + 2) (acc ++ [b]) } }.
Next Obligation. lia. Qed.

(** ** The component *)

Section WeatherBar.

(** [String(...)] on the integers beyond 2^53 (see [JS.String_]): a
    parameter. *)
Context (large_toString : Z → string).

(** The raw measurements are JavaScript numbers that the component only
    prints: [Number_toString] is their conversion inside a template literal. *)
Context {number : Type} (Number_toString : number → string).

(** The glyph built by [getWindBarbSVG] of [./lib/svg-wind-barbs], which is
    outside the sources: a parameter. *)
Context {Svg : Type} (getWindBarbSVG : number → Svg).

(** The constant table [ICONS] of [./conditions], which is outside the
    sources: a parameter, with the members it inherits.  The table of default
    labels [LABELS] is only the initial value of the property [labels]. *)
Context (ICONS : JS.object).

(** Modelled from the spec: the type [SegmentTemperature] of [./types],
    (hourLabel: string, temperatureValue: number). *)
Record SegmentTemperature := {
  hour : string;
  temperature : number }.

(** Modelled from the spec: the type [SegmentWind] of [./types],
    (windSpeedDisplay: string, windSpeedRawMetersPerSecond: number,
    windDirectionDisplay: string, windDirectionRawDegrees: number). *)
Record SegmentWind := {
  windSpeed : string;
  windSpeedRawMS : number;
  windDirection : string;
  windDirectionRaw : number }.

(** Modelled from the spec: the type [SegmentPrecipitation] of [./types],
    (precipitationAmountDisplay: string). *)
Record SegmentPrecipitation := {
  precipitationAmount : string }.

(** The [<svg class="barb" style=...>] element returned by [getWindBarb]. *)
Record WindBarb := {
  transform : string;
  glyph : Svg }.

(** The templates pushed on the local array [wind]. *)
Inductive WindPart :=
  | WindText (text : string)
  | WindBreak
  | WindBarbSpan (title : string) (barb : WindBarb).

(** One [<div class="bar-block">]: the contents of its four regions; [None]
    is the [null] that renders nothing, and the temperature stands for the
    template that prints it before the degree sign. *)
Record BarBlock := {
  block_hour : option string;
  block_temperature : option number;
  block_wind : list WindPart;
  block_precipitation : option string }.

(** The [<style>] element of [getColorStyles]: the declarations put inside
    the rule [.main > .bar]. *)
Record ColorStyles := {
  declarations : string }.

(** The [<div class="main">] returned by [render]. *)
Record Main := {
  colorStyles : option ColorStyles;
  bar : list ConditionBar;
  axes : list BarBlock }.

(** The options object given to [tippy]. *)
Record TippyProps := {
  appendTo : option Main;
  touch : string }.

(** A tooltip instance of tippy.js: its identity, the element it is bound to
    and the options it was created with. *)
Record Instance := {
  instance_id : nat;
  reference : ConditionBar;
  instance_props : TippyProps }.

(** The fields of the class; [renderRoot] holds what the last completed
    render put in the shadow root. *)
Record WeatherBar := {
  conditions : list ConditionSpan;
  temperatures : list SegmentTemperature;
  wind : list SegmentWind;
  precipitation : list SegmentPrecipitation;
  icons : bool;
  colors : option ColorMap;
  hide_hours : bool;
  hide_temperatures : bool;
  show_wind : string;
  show_precipitation_amounts : bool;
  label_spacing : Z;
  labels : JS.object;
  tips : list Instance;
  renderRoot : option Main }.

(** *** [render]: the condition bar *)

(** Lines 55-57: the icon of a condition key. *)
Definition resolve_icon (key : string) : string :=
  let icon := ICONS !! key in
  if JS.strict_eq icon key then "mdi:weather-" +:+ JS.ToString icon
  else "mdi:" +:+ JS.ToString icon.

(** Lines 59-65: the template of one segment, given the cursor before it. *)
Definition condition_bar (this : WeatherBar) (gridStart : JS.num)
    (cond : ConditionSpan) : ConditionBar :=
  let label := labels this !! cond.1 in
  let icon := resolve_icon cond.1 in
  let barStyles :=
    {| gridColumnStart := JS.String_ large_toString gridStart;
       gridColumnEnd :=
         JS.String_ large_toString (JS.add gridStart (JS.Fin cond.2)) |} in
  {| class_ := cond.1;
     style := barStyles;
     data_tippy_content := label;
     child := if icons this then ConditionIcon icon else ConditionLabel label |}.

(** The body of the loop over [this.conditions]: the state is the cursor
    [gridStart], advanced by [gridStart += cond[1]], and the array
    [conditionBars]. *)
Definition condition_step (this : WeatherBar)
    (st : JS.num * list ConditionBar) (cond : ConditionSpan)
  : JS.num * list ConditionBar :=
  let '(gridStart, conditionBars) := st in
  (JS.add gridStart (JS.Fin cond.2),
   conditionBars ++ [condition_bar this gridStart cond]).

Definition condition_loop (this : WeatherBar) : JS.num * list ConditionBar :=
  fold_left (condition_step this) (conditions this) (JS.Fin 1, []).

(** *** [render]: the axis blocks *)

(** Line 70. *)
Definition skipLabel (this : WeatherBar) (i : nat) : bool :=
  JS.strict_ne_zero (JS.rem (Z.of_nat i - 1) (label_spacing this)).

(** [getWindBarb]. *)
Definition getWindBarb (speed direction : number) : WindBarb :=
  {| transform := "rotate(" +:+ Number_toString direction +:+ "deg)";
     glyph := getWindBarbSVG speed |}.

(** Lines 80-86: the array [wind] of one slot. *)
Definition wind_parts (showWindSpeed showWindDirection showWindBarb : bool)
    (w : SegmentWind) : list WindPart :=
  let wind0 : list WindPart := [] in
  let wind1 := if showWindSpeed then wind0 ++ [WindText (windSpeed w)] else wind0 in
  let wind2 := if showWindSpeed && showWindDirection
               then wind1 ++ [WindBreak] else wind1 in
  let wind3 := if showWindDirection
               then wind2 ++ [WindText (windDirection w)] else wind2 in
  if showWindBarb
  then wind3 ++ [WindBarbSpan (windSpeed w +:+ " " +:+ windDirection w)
                   (getWindBarb (windSpeedRawMS w) (windDirectionRaw w))]
  else wind3.

(** Lines 70-100: the body of the axis loop at index [i]. *)
Definition axis_block (this : WeatherBar) (i : nat) : JS.result BarBlock :=
  let skip := skipLabel this i in
  let hideHours := hide_hours this || skip in
  let hideTemperature := hide_temperatures this || skip in
  let showWindSpeed :=
    (bool_decide (show_wind this = "true") || bool_decide (show_wind this = "speed"))
    && negb skip in
  let showWindDirection :=
    (bool_decide (show_wind this = "true") || bool_decide (show_wind this = "direction"))
    && negb skip in
  let showWindBarb := bool_decide (show_wind this = "barb") && negb skip in
  let showPrecipitationAmounts := show_precipitation_amounts this && negb skip in
  t ← JS.destructure (temperatures this !! i);
  w ← JS.destructure (wind this !! i);
  let wind_ := wind_parts showWindSpeed showWindDirection showWindBarb w in
  p ← JS.destructure (precipitation this !! i);
  JS.Ok {| block_hour := if hideHours then None else Some (hour t);
           block_temperature := if hideTemperature then None
                                else Some (temperature t);
           block_wind := wind_;
           block_precipitation := if showPrecipitationAmounts
                                  then Some (precipitationAmount p) else None |}.

(** Lines 68-101. *)
Definition axis_loop (this : WeatherBar) : JS.result (list BarBlock) :=
  for_axis (axis_block this) (length (temperatures this)) 1 [].

(** The indices at which the loop header runs the body, whatever the body. *)
Definition axis_indices (n : nat) : JS.result (list nat) :=
  for_axis (λ i, JS.Ok i) n 1 [].

(** *** [getColorStyles] and [render] *)

Definition color_vars (colors : ColorMap) : list string :=
  fold_left (λ vars '(key, color), vars ++ ["--color-" +:+ key +:+ ": " +:+ color +:+ ";"])
    colors [].

Definition getColorStyles (colors : option ColorMap) : option ColorStyles :=
  match colors with
  | None => None
  | Some entries =>
      if decide (length entries = 0%nat) then None
      else Some {| declarations := JS.join " " (color_vars entries) |}
  end.

Definition render (this : WeatherBar) : JS.result Main :=
  let '(_, conditionBars) := condition_loop this in
  barBlocks ← axis_loop this;
  let colorStyles0 : option ColorStyles := None in
  let colorStyles1 :=
    match colors this with
    | Some _ => getColorStyles (colors this)
    | None => colorStyles0
    end in
  JS.Ok {| colorStyles := colorStyles1; bar := conditionBars; axes := barBlocks |}.

(** *** [update]: the tooltips

    tippy.js is a library outside the sources.  Its state is modelled by the
    sequence of its events: [tippy(targets, props)] creates one instance per
    target, in order, each with a fresh identity; [t.destroy()] destroys the
    instance [t]. *)
Inductive TippyEvent :=
  | Created (id : nat) (target : ConditionBar)
  | Destroyed (id : nat).

Record Tippy := {
  next_id : nat;
  events : list TippyEvent }.

Definition tippy_init : Tippy := {| next_id := 0; events := [] |}.

Definition destroy (w : Tippy) (t : Instance) : Tippy :=
  {| next_id := next_id w;
     events := events w ++ [Destroyed (instance_id t)] |}.

Fixpoint tippy (targets : list ConditionBar) (props : TippyProps) (w : Tippy)
  : list Instance * Tippy :=
  match targets with
  | [] => ([], w)
  | target :: rest =>
      let t := {| instance_id := next_id w; reference := target;
                  instance_props := props |} in
      let w1 := {| next_id := S (next_id w);
                   events := events w ++ [Created (next_id w) target] |} in
      let '(ts, w2) := tippy rest props w1 in
      (t :: ts, w2)
  end.

(** [this.renderRoot.querySelectorAll('.bar > div')]: the segments of the
    condition bar, in document order. *)
Definition querySelectorAll_bar_div (root : option Main) : list ConditionBar :=
  match root with
  | Some main => bar main
  | None => []
  end.

Definition set_renderRoot (this : WeatherBar) (root : option Main) : WeatherBar :=
  {| conditions := conditions this; temperatures := temperatures this;
     wind := wind this; precipitation := precipitation this;
     icons := icons this; colors := colors this;
     hide_hours := hide_hours this; hide_temperatures := hide_temperatures this;
     show_wind := show_wind this;
     show_precipitation_amounts := show_precipitation_amounts this;
     label_spacing := label_spacing this; labels := labels this;
     tips := tips this; renderRoot := root |}.

Definition set_tips (this : WeatherBar) (ts : list Instance) : WeatherBar :=
  {| conditions := conditions this; temperatures := temperatures this;
     wind := wind this; precipitation := precipitation this;
     icons := icons this; colors := colors this;
     hide_hours := hide_hours this; hide_temperatures := hide_temperatures this;
     show_wind := show_wind this;
     show_precipitation_amounts := show_precipitation_amounts this;
     label_spacing := label_spacing this; labels := labels this;
     tips := ts; renderRoot := renderRoot this |}.

(** [update]: [super.update] renders into the shadow root (and lets an
    exception of [render] through); then the old instances are destroyed and
    new ones are created. *)
Definition update (this : WeatherBar) (w : Tippy) : JS.result (WeatherBar * Tippy) :=
  main ← render this;
  let this1 := set_renderRoot this (Some main) in
  let w1 := fold_left destroy (tips this1) w in
  let '(ts, w2) :=
    tippy (querySelectorAll_bar_div (renderRoot this1))
      {| appendTo := renderRoot this1; touch := "hold" |} w1 in
  JS.Ok (set_tips this1 ts, w2).

(** The states of a component and of the tooltip library that the host can
    bring about: it creates the component with no tooltip, sets its public
    properties, and the framework calls [update]. *)
Inductive reachable : WeatherBar → Tippy → Prop :=
  | reach_init this :
      tips this = [] → renderRoot this = None → reachable this tippy_init
  | reach_set this this' w :
      reachable this w →
      tips this' = tips this → renderRoot this' = renderRoot this →
      reachable this' w
  | reach_update this w this' w' :
      reachable this w → update this w = JS.Ok (this', w') →
      reachable this' w'.

(** The identities of the instances created, and of those still alive. *)
Definition created_ids (evs : list TippyEvent) : list nat :=
  omap (λ e, match e with Created id _ => Some id | Destroyed _ => None end) evs.

Definition destroyed_ids (evs : list TippyEvent) : list nat :=
  omap (λ e, match e with Destroyed id => Some id | Created _ _ => None end) evs.

Definition live (w : Tippy) : list nat :=
  filter (λ id, id ∉ destroyed_ids (events w)) (created_ids (events w)).

End WeatherBar.

(** ** Notions used in the statements *)

(** The sum of the durations of a sequence of spans. *)
Definition total_duration (conds : list ConditionSpan) : Z :=
  foldr (λ cond s, (cond.2 + s)%Z) 0%Z conds.

(** The value of the cursor [gridStart] when the loop reaches span [i]: 1,
    advanced by the durations of the spans before it, one rounded addition
    each. *)
Definition cursor_at (conds : list ConditionSpan) (i : nat) : JS.num :=
  fold_left (λ g cond, JS.add g (JS.Fin cond.2)) (take i conds) (JS.Fin 1).

(** The grid line on which span [i] starts: one past the columns taken by the
    spans before it. *)
Definition start_column (conds : list ConditionSpan) (i : nat) : Z :=
  (1 + total_duration (take i conds))%Z.

(** The numbers [i], [i + 2], [i + 4], ... below [n]. *)
Definition indices_from (i n : nat) : list nat :=
  (λ k, i + 2 * k)%nat <$> seq 0 ((n + 1 - i) / 2).

(** The odd numbers below [n], in increasing order. *)
Definition odd_indices (n : nat) : list nat :=
  (λ k, 2 * k + 1)%nat <$> seq 0 (n / 2).

(** The declaration pushed on [vars] for one entry of the colour map. *)
Definition color_declaration (entry : string * string) : string :=
  "--color-" +:+ entry.1 +:+ ": " +:+ entry.2 +:+ ";".


(** ** Sample data for the examples *)

Module Sample.

(** Some members that an object literal inherits from [Object.prototype]:
    functions, by their string conversion. *)
Definition Object_prototype : gmap string JS.value :=
  {[ "constructor" := JS.Other "function Object() { [native code] }";
     "toString" := JS.Other "function toString() { [native code] }";
     "valueOf" := JS.Other "function valueOf() { [native code] }";
     "hasOwnProperty" := JS.Other "function hasOwnProperty() { [native code] }" ]}.

(** A small icon table in the style of [./conditions]. *)
Definition ICONS : JS.object :=
  {| JS.own := {[ "sunny" := "sunny"; "rainy" := "rainy";
                  "clear-night" := "night";
                  "exceptional" := "alert-circle-outline" ]};
     JS.inherited := Object_prototype |}.

Definition LABELS : JS.object :=
  {| JS.own := {[ "sunny" := "Sun"; "rainy" := "Rain";
                  "clear-night" := "Clear" ]};
     JS.inherited := Object_prototype |}.

(** A stand-in for the string conversion beyond 2^53; the sample data stay
    within 2^53, where it is not used. *)
Definition large_toString (z : Z) : string := pretty z +:+ "e+0".

(** Raw measurements as integers, printed in decimal; the glyph of a speed
    is left symbolic. *)
Definition Number_toString (n : Z) : string := pretty n.
Definition getWindBarbSVG (speed : Z) : Z := speed.

Definition slot_t (h : string) (t : Z) : SegmentTemperature :=
  {| hour := h; temperature := t |}.
Definition slot_w (s : string) (raw : Z) (d : string) (deg : Z) : SegmentWind :=
  {| windSpeed := s; windSpeedRawMS := raw; windDirection := d;
     windDirectionRaw := deg |}.
Definition slot_p (a : string) : SegmentPrecipitation :=
  {| precipitationAmount := a |}.

(** A component with the given conditions, [n] slots in each of the three
    axis arrays, and the given wind mode, label spacing and colour map; the
    other fields are as the class initialises them. *)
Definition make (conds : list ConditionSpan) (n : nat) (mode : string)
    (spacing : Z) (cols : option ColorMap) : @WeatherBar Z Z :=
  {| conditions := conds;
     temperatures := (λ k, slot_t (pretty k) (Z.of_nat k)) <$> seq 0 n;
     wind := (λ k, slot_w "5" 5 "SW" 225) <$> seq 0 n;
     precipitation := (λ k, slot_p "0.2") <$> seq 0 n;
     icons := false; colors := cols;
     hide_hours := false; hide_temperatures := false;
     show_wind := mode; show_precipitation_amounts := false;
     label_spacing := spacing; labels := LABELS;
     tips := []; renderRoot := None |}.

Definition bar_with (conds : list ConditionSpan) (n : nat) : @WeatherBar Z Z :=
  make conds n "false" 2 None.

(** The same with the wind sequence cut to [m] slots. *)
Definition short_wind (n m : nat) : @WeatherBar Z Z :=
  {| conditions := []; temperatures := temperatures (bar_with [] n);
     wind := take m (wind (bar_with [] n));
     precipitation := precipitation (bar_with [] n);
     icons := false; colors := None;
     hide_hours := false; hide_temperatures := false;
     show_wind := "false"; show_precipitation_amounts := false;
     label_spacing := 2; labels := LABELS;
     tips := []; renderRoot := None |}.

Definition render :=
  render large_toString Number_toString getWindBarbSVG ICONS.
Definition update :=
  update large_toString Number_toString getWindBarbSVG ICONS.

End Sample.

(** ** Properties *)

Section Properties.

Context (large_toString : Z → string).
Context {number : Type} (Number_toString : number → string).
Context {Svg : Type} (getWindBarbSVG : number → Svg).
Context (ICONS : JS.object).

Local Abbreviation WeatherBar := (@WeatherBar number Svg).
Local Abbreviation render :=
  (render large_toString Number_toString getWindBarbSVG ICONS).
Local Abbreviation update :=
  (update large_toString Number_toString getWindBarbSVG ICONS).
Local Abbreviation axis_block := (axis_block Number_toString getWindBarbSVG).
Local Abbreviation axis_loop := (axis_loop Number_toString getWindBarbSVG).
Local Abbreviation condition_bar := (condition_bar large_toString ICONS).
Local Abbreviation condition_step := (condition_step large_toString ICONS).
Local Abbreviation condition_loop := (condition_loop large_toString ICONS).
Local Abbreviation reachable :=
  (reachable large_toString Number_toString getWindBarbSVG ICONS).

Implicit Types (this : WeatherBar) (conds : list ConditionSpan).

(** *** The condition bar *)

Lemma total_duration_app conds1 conds2 :
  total_duration (conds1 ++ conds2)
  = (total_duration conds1 + total_duration conds2)%Z.
Proof.
  induction conds1 as [|c conds1 IH]; simpl; [done|]. rewrite IH. lia.
Qed.

Lemma start_column_S conds i cond :
  conds !! i = Some cond →
  start_column conds (S i) = (start_column conds i + cond.2)%Z.
Proof.
  intros Hi. unfold start_column.
  rewrite (take_S_r _ _ _ Hi), total_duration_app. simpl. lia.
Qed.

Lemma start_column_ge conds i :
  (length conds ≤ i)%nat →
  start_column conds i = (1 + total_duration conds)%Z.
Proof. intros Hi. unfold start_column. by rewrite take_ge. Qed.

Lemma start_column_le conds i j :
  Forall (λ cond, (0 < cond.2)%Z) conds →
  (i ≤ j)%nat → (j ≤ length conds)%nat →
  (start_column conds i ≤ start_column conds j)%Z.
Proof.
  intros Hpos Hij. induction Hij as [|j Hij IH]; intros Hj; [done|].
  destruct (lookup_lt_is_Some_2 conds j ltac:(lia)) as [cond Hc].
  rewrite (start_column_S _ _ _ Hc).
  rewrite Forall_lookup in Hpos. specialize (Hpos _ _ Hc). simpl in Hpos.
  specialize (IH ltac:(lia)). lia.
Qed.

(** With positive durations every start column lies between 1 and one past
    the total. *)
Lemma start_column_range conds i :
  Forall (λ cond, (0 < cond.2)%Z) conds →
  (1 ≤ start_column conds i ≤ 1 + total_duration conds)%Z.
Proof.
  intros Hpos.
  destruct (decide (i ≤ length conds)%nat) as [Hi|Hi].
  - pose proof (start_column_le conds 0 i Hpos ltac:(lia) Hi) as H0.
    pose proof (start_column_le conds i (length conds) Hpos Hi ltac:(lia)) as H1.
    rewrite (start_column_ge conds (length conds)) in H1 by lia.
    change (start_column conds 0) with 1%Z in H0. lia.
  - rewrite start_column_ge by lia.
    pose proof (start_column_le conds 0 (length conds) Hpos ltac:(lia) ltac:(lia))
      as H0.
    rewrite (start_column_ge conds (length conds)) in H0 by lia.
    change (start_column conds 0) with 1%Z in H0. lia.
Qed.

(** Up to 2^53 in magnitude the rounding of a sum does nothing, and the
    string conversion prints decimal digits. *)
Lemma round_exact z : (Z.abs z ≤ 2 ^ 53)%Z → JS.round z = JS.Fin z.
Proof.
  intros Hz. unfold JS.round.
  destruct (Z.leb_spec (Z.abs z) (2 ^ 53)) as [_|?]; [done|lia].
Qed.

Lemma String_decimal z :
  (Z.abs z ≤ 2 ^ 53)%Z → JS.String_ large_toString (JS.Fin z) = pretty z.
Proof.
  intros Hz. unfold JS.String_.
  destruct (Z.leb_spec (Z.abs z) (2 ^ 53)) as [_|?]; [done|lia].
Qed.

Lemma cursor_at_S conds i cond :
  conds !! i = Some cond →
  cursor_at conds (S i) = JS.add (cursor_at conds i) (JS.Fin cond.2).
Proof.
  intros Hi. unfold cursor_at.
  by rewrite (take_S_r _ _ _ Hi), fold_left_app.
Qed.

(** While the start columns stay within 2^53 the cursor holds them
    exactly. *)
Lemma cursor_exact conds i :
  (∀ j, (j ≤ i)%nat → (Z.abs (start_column conds j) ≤ 2 ^ 53)%Z) →
  cursor_at conds i = JS.Fin (start_column conds i).
Proof.
  induction i as [|i IH]; intros Hb; [done|].
  destruct (conds !! i) as [cond|] eqn:Hi.
  - rewrite (cursor_at_S _ _ _ Hi), IH by (intros j Hj; apply Hb; lia).
    simpl. rewrite <- (start_column_S _ _ _ Hi). apply round_exact, Hb. lia.
  - apply lookup_ge_None in Hi.
    unfold cursor_at, start_column in *. rewrite (take_ge _ (S i)) by lia.
    rewrite (take_ge _ i) in IH by lia. apply IH. intros j Hj. apply Hb. lia.
Qed.


(** The loop from any cursor [g]: segment [i] is built with the cursor
    advanced by the rounded additions of the spans before it. *)
Lemma condition_loop_from this conds g acc :
  fold_left (condition_step this) conds (g, acc)
  = (fold_left (λ g cond, JS.add g (JS.Fin cond.2)) conds g,
     acc ++ imap (λ i cond,
                    condition_bar this
                      (fold_left (λ g cond, JS.add g (JS.Fin cond.2))
                         (take i conds) g) cond)
              conds).
Proof.
  revert g acc. induction conds as [|c conds IH]; intros g acc; simpl.
  - by rewrite app_nil_r.
  - rewrite IH. f_equal. by rewrite <- app_assoc.
Qed.

Lemma condition_loop_spec this :
  condition_loop this
  = (cursor_at (conditions this) (length (conditions this)),
     imap (λ i cond, condition_bar this (cursor_at (conditions this) i) cond)
       (conditions this)).
Proof.
  unfold condition_loop. rewrite condition_loop_from.
  unfold cursor_at. by rewrite firstn_all.
Qed.

Lemma render_bar this main :
  render this = JS.Ok main → bar main = (condition_loop this).2.
Proof.
  unfold render. destruct (condition_loop this) as [g bars].
  destruct (axis_loop this) as [blocks|e]; simpl; [|done].
  intros [= <-]. done.
Qed.

Lemma render_bar_lookup this main i :
  render this = JS.Ok main →
  bar main !! i
  = condition_bar this (cursor_at (conditions this) i) <$> conditions this !! i.
Proof.
  intros Hr. rewrite (render_bar _ _ Hr), condition_loop_spec. simpl.
  by rewrite list_lookup_imap.
Qed.


(** *** Labels and icons of a segment *)

Lemma object_lookup_absent (o : JS.object) key :
  JS.own o !! key = None → o !! key = JS.inherited o !! key.
Proof.
  intros Hown. unfold lookup at 1, object_lookup, JS.get. by rewrite Hown.
Qed.

(** C4, as the code has it.  For a condition key that is not a key of the
    labels mapping, the segment is built without error, its CSS class is the
    raw key, and its label is what the property access yields for such a
    key: the member of that name which the object inherits, and [undefined]
    when there is none.  The tooltip content and the label text receive this
    value; the raw key is not put in its place. *)
Theorem unknown_label_segment this i cond :
  conditions this !! i = Some cond →
  JS.own (labels this) !! cond.1 = None →
  ∃ seg,
    (condition_loop this).2 !! i = Some seg
    ∧ (∀ main, render this = JS.Ok main → bar main !! i = Some seg)
    ∧ class_ seg = cond.1
    ∧ data_tippy_content seg = JS.inherited (labels this) !! cond.1
    ∧ child seg
      = (if icons this then ConditionIcon (resolve_icon ICONS cond.1)
         else ConditionLabel (JS.inherited (labels this) !! cond.1))
    ∧ (JS.inherited (labels this) !! cond.1 = None →
       data_tippy_content seg = None
       ∧ (icons this = false → child seg = ConditionLabel None)).
Proof.
  intros Hi Hl. apply object_lookup_absent in Hl.
  exists (condition_bar this (cursor_at (conditions this) i) cond).
  split_and!.
  - rewrite condition_loop_spec. simpl. by rewrite list_lookup_imap, Hi.
  - intros main Hr. by rewrite (render_bar_lookup _ _ _ Hr), Hi.
  - done.
  - unfold condition_bar. simpl. by rewrite Hl.
  - unfold condition_bar. simpl. by rewrite Hl.
  - intros Hnone. unfold condition_bar. simpl. rewrite Hl, Hnone.
    split; [done|]. by intros ->.
Qed.

(** C6. If the icon table returns the key itself, the icon identifier is
    ['mdi:weather-'] followed by that value; otherwise it is ['mdi:']
    followed by the looked-up value (as [+] converts it to a string).  In
    icon mode this identifier is the icon of the rendered segment. *)
Theorem icon_resolution key :
  (ICONS !! key = Some (JS.Str key) →
   resolve_icon ICONS key = "mdi:weather-" +:+ key)
  ∧ (ICONS !! key ≠ Some (JS.Str key) →
     resolve_icon ICONS key = "mdi:" +:+ JS.ToString (ICONS !! key))
  ∧ (∀ this main i d,
       render this = JS.Ok main → conditions this !! i = Some (key, d) →
       icons this = true →
       child <$> bar main !! i = Some (ConditionIcon (resolve_icon ICONS key))).
Proof.
  unfold resolve_icon, JS.strict_eq. split_and!.
  - intros H. rewrite bool_decide_eq_true_2 by done. by rewrite H.
  - intros H. by rewrite bool_decide_eq_false_2.
  - intros this main i d Hr Hi Hic.
    rewrite (render_bar_lookup _ _ _ Hr), Hi. simpl.
    unfold condition_bar. simpl. by rewrite Hic.
Qed.

(** C10, as the code has it.  For a key that is not a key of the icon
    table the lookup yields the member of that name which the table object
    inherits.  When there is none, the lookup is [undefined], the strict
    equality with the key fails, and the icon identifier is
    ['mdi:undefined']: it never carries the ['mdi:weather-'] prefix, and in
    icon mode it is the icon of the rendered segment.  When the inherited
    member is not a string, the equality fails as well and the identifier is
    ['mdi:'] followed by the string conversion of that member. *)
Theorem unknown_icon key :
  JS.own ICONS !! key = None →
  ICONS !! key = JS.inherited ICONS !! key
  ∧ (JS.inherited ICONS !! key = None →
     ICONS !! key = None
     ∧ JS.strict_eq (ICONS !! key) key = false
     ∧ resolve_icon ICONS key = "mdi:undefined"
     ∧ (∀ suffix, resolve_icon ICONS key ≠ "mdi:weather-" +:+ suffix)
     ∧ (∀ this main i d,
          render this = JS.Ok main → conditions this !! i = Some (key, d) →
          icons this = true →
          child <$> bar main !! i = Some (ConditionIcon "mdi:undefined")))
  ∧ (∀ text, JS.inherited ICONS !! key = Some (JS.Other text) →
       JS.strict_eq (ICONS !! key) key = false
       ∧ resolve_icon ICONS key = "mdi:" +:+ text).
Proof.
  intros Hown. pose proof (object_lookup_absent _ _ Hown) as Hk.
  split_and!; [done| |].
  - intros Hnone. rewrite Hnone in Hk.
    assert (Hicon : resolve_icon ICONS key = "mdi:undefined").
    { unfold resolve_icon, JS.strict_eq. rewrite Hk.
      by rewrite bool_decide_eq_false_2. }
    split_and!.
    + done.
    + unfold JS.strict_eq. rewrite Hk. by apply bool_decide_eq_false_2.
    + done.
    + intros suffix. rewrite Hicon. simpl. discriminate.
    + intros this main i d Hr Hi Hic.
      rewrite (render_bar_lookup _ _ _ Hr), Hi. simpl.
      unfold condition_bar. simpl. by rewrite Hic, Hicon.
  - intros text Htext. rewrite Htext in Hk.
    unfold resolve_icon, JS.strict_eq. rewrite Hk.
    by rewrite bool_decide_eq_false_2.
Qed.

(** *** The axis loop *)

Lemma for_axis_step {A} (body : nat → JS.result A) n i acc :
  for_axis body n i acc
  = if decide (i < n)%nat
    then match body i with
         | JS.Ok b => for_axis body n (i + 2) (acc ++ [b])
         | JS.Throw e => JS.Throw e
         end
    else JS.Ok acc.
Proof.
  simp for_axis. destruct (decide (i < n)%nat); simpl; [|done].
  by destruct (body i).
Qed.

Lemma indices_from_lt i n :
  (i < n)%nat → indices_from i n = i :: indices_from (i + 2) n.
Proof.
  intros Hlt. unfold indices_from.
  replace ((n + 1 - i) / 2)%nat with (S ((n + 1 - (i + 2)) / 2)).
  - simpl. f_equal; [lia|]. rewrite <- fmap_S_seq, <- list_fmap_compose.
    apply list_fmap_ext. intros _ k _. simpl. lia.
  - replace (n + 1 - i)%nat with (n + 1 - (i + 2) + 1 * 2)%nat by lia.
    rewrite Nat.div_add by lia. lia.
Qed.

Lemma indices_from_ge i n : ¬ (i < n)%nat → indices_from i n = [].
Proof.
  intros Hge. unfold indices_from.
  replace ((n + 1 - i) / 2)%nat with 0%nat; [done|].
  symmetry. apply Nat.div_small. lia.
Qed.

Lemma indices_from_1 n : indices_from 1 n = odd_indices n.
Proof.
  unfold indices_from, odd_indices.
  replace (n + 1 - 1)%nat with n by lia.
  apply list_fmap_ext. intros _ k _. lia.
Qed.

Lemma elem_of_odd_indices n i :
  i ∈ odd_indices n ↔ Nat.Odd i ∧ (i < n)%nat.
Proof.
  unfold odd_indices. rewrite list_elem_of_fmap. split.
  - intros (k & -> & Hk). apply elem_of_seq in Hk. split; [by exists k|].
    assert (2 * (n / 2) ≤ n)%nat by (apply Nat.Div0.mul_div_le). lia.
  - intros [[k ->] Hlt]. exists k. split; [done|].
    apply elem_of_seq. split; [lia|].
    change (0 + n / 2)%nat with (n / 2)%nat.
    apply Nat.div_le_lower_bound; lia.
Qed.

(** What the loop returns: the blocks of all the indices when the body
    succeeds on each, and otherwise the exception of some index. *)
Lemma for_axis_spec {A} (body : nat → JS.result A) n i acc :
  match for_axis body n i acc with
  | JS.Ok blocks =>
      ∃ bs, blocks = acc ++ bs
            ∧ Forall2 (λ j b, body j = JS.Ok b) (indices_from i n) bs
  | JS.Throw e => ∃ j, j ∈ indices_from i n ∧ body j = JS.Throw e
  end.
Proof.
  remember (n - i)%nat as m eqn:Hm. revert i acc Hm.
  induction m as [m IH] using lt_wf_ind. intros i acc ->.
  rewrite for_axis_step. destruct (decide (i < n)%nat) as [Hlt|Hge].
  - rewrite (indices_from_lt _ _ Hlt).
    destruct (body i) as [b|e] eqn:Hb.
    + specialize (IH (n - (i + 2))%nat ltac:(lia) (i + 2)%nat (acc ++ [b]) eq_refl).
      destruct (for_axis body n (i + 2) (acc ++ [b])) as [blocks|e].
      * destruct IH as (bs & -> & Hbs). exists (b :: bs).
        split; [by rewrite <- app_assoc|]. by constructor.
      * destruct IH as (j & Hj & Hbj). exists j. split; [by right|done].
    + exists i. split; [by left|done].
  - rewrite (indices_from_ge _ _ Hge). exists []. split; [by rewrite app_nil_r|].
    constructor.
Qed.

Lemma render_axes this main :
  render this = JS.Ok main →
  Forall2 (λ j b, axis_block this j = JS.Ok b)
    (odd_indices (length (temperatures this))) (axes main).
Proof.
  unfold render. destruct (condition_loop this) as [g bars].
  pose proof (for_axis_spec (axis_block this) (length (temperatures this)) 1 [])
    as Hspec.
  unfold axis_loop. 
  destruct (for_axis _ _ _ _) as [blocks|e]; simpl; [|done].
  intros [= <-]. simpl. destruct Hspec as (bs & -> & Hbs).
  by rewrite <- indices_from_1.
Qed.

Lemma render_throw this e :
  render this = JS.Throw e →
  ∃ j, j ∈ odd_indices (length (temperatures this))
       ∧ axis_block this j = JS.Throw e.
Proof.
  unfold render. destruct (condition_loop this) as [g bars].
  pose proof (for_axis_spec (axis_block this) (length (temperatures this)) 1 [])
    as Hspec.
  unfold axis_loop.
  destruct (for_axis _ _ _ _) as [blocks|e']; simpl; [done|].
  intros _. destruct e, e'. by rewrite <- indices_from_1.
Qed.

Lemma odd_indices_lookup n k i :
  odd_indices n !! k = Some i → i = (2 * k + 1)%nat.
Proof.
  unfold odd_indices. rewrite list_lookup_fmap.
  destruct (seq 0 (n / 2) !! k) as [k'|] eqn:Hk; [|done].
  apply lookup_seq in Hk as [-> _]. simpl. by intros [= <-].
Qed.

(** Block [k] of the axis is the body of the loop at index [2 * k + 1]. *)
Lemma render_axes_lookup this main k b :
  render this = JS.Ok main → axes main !! k = Some b →
  (2 * k + 1 < length (temperatures this))%nat
  ∧ axis_block this (2 * k + 1) = JS.Ok b.
Proof.
  intros Hr Hk. pose proof (render_axes _ _ Hr) as Hall.
  destruct (Forall2_lookup_r _ _ _ _ _ Hall Hk) as (i & Hi & Hb).
  pose proof (odd_indices_lookup _ _ _ Hi) as ->.
  split; [|done].
  apply list_elem_of_lookup_2, elem_of_odd_indices in Hi. lia.
Qed.

Lemma axis_indices_spec n : axis_indices n = JS.Ok (odd_indices n).
Proof.
  unfold axis_indices.
  pose proof (for_axis_spec (λ i, JS.Ok i) n 1 []) as Hspec.
  destruct (for_axis _ _ _ _) as [blocks|e].
  - destruct Hspec as (bs & -> & Hbs). simpl. f_equal.
    rewrite <- indices_from_1. symmetry.
    induction Hbs as [|j b js bs [= ->] _ IH]; [done|]. by rewrite IH.
  - by destruct Hspec as (j & _ & ?).
Qed.

Lemma length_odd_indices n : length (odd_indices n) = (n / 2)%nat.
Proof. unfold odd_indices. by rewrite length_fmap, length_seq. Qed.

Lemma odd_indices_lookup_half n i :
  i ∈ odd_indices n → odd_indices n !! (i / 2)%nat = Some i.
Proof.
  intros Hi. apply list_elem_of_lookup_1 in Hi as [k Hk].
  pose proof (odd_indices_lookup _ _ _ Hk) as ->.
  replace ((2 * k + 1) / 2)%nat with k; [done|].
  apply Nat.div_unique with 1%nat; lia.
Qed.

(** The slot of a sampled index [i] in the rendered axis is block [i / 2]. *)
Lemma render_axes_at this main i :
  render this = JS.Ok main →
  i ∈ odd_indices (length (temperatures this)) →
  ∃ b, axes main !! (i / 2)%nat = Some b ∧ axis_block this i = JS.Ok b.
Proof.
  intros Hr Hi. apply odd_indices_lookup_half in Hi.
  exact (Forall2_lookup_l _ _ _ _ _ (render_axes _ _ Hr) Hi).
Qed.

(** The body of the loop succeeds exactly when the three arrays have an
    element at the index, and then the block is given by the flags. *)
Lemma axis_block_ok this i b :
  axis_block this i = JS.Ok b ↔
  ∃ t w p,
    temperatures this !! i = Some t ∧ wind this !! i = Some w
    ∧ precipitation this !! i = Some p
    ∧ b = {| block_hour :=
               if hide_hours this || skipLabel this i then None else Some (hour t);
             block_temperature :=
               if hide_temperatures this || skipLabel this i then None
               else Some (temperature t);
             block_wind :=
               wind_parts Number_toString getWindBarbSVG
                 ((bool_decide (show_wind this = "true")
                   || bool_decide (show_wind this = "speed"))
                  && negb (skipLabel this i))
                 ((bool_decide (show_wind this = "true")
                   || bool_decide (show_wind this = "direction"))
                  && negb (skipLabel this i))
                 (bool_decide (show_wind this = "barb") && negb (skipLabel this i))
                 w;
             block_precipitation :=
               if show_precipitation_amounts this && negb (skipLabel this i)
               then Some (precipitationAmount p) else None |}.
Proof.
  unfold axis_block.
  destruct (temperatures this !! i) as [t|]; simpl;
    [|split; [done|by intros (?&?&?&?&?)]].
  destruct (wind this !! i) as [w|]; simpl;
    [|split; [done|by intros (?&?&?&?&?&?)]].
  destruct (precipitation this !! i) as [p|]; simpl;
    [|split; [done|by intros (?&?&?&?&?&?&?)]].
  split.
  - intros [= <-]. by exists t, w, p.
  - intros (t' & w' & p' & [= <-] & [= <-] & [= <-] & ->). done.
Qed.

Lemma axis_block_throw this i e :
  axis_block this i = JS.Throw e →
  temperatures this !! i = None ∨ wind this !! i = None
  ∨ precipitation this !! i = None.
Proof.
  unfold axis_block.
  destruct (temperatures this !! i) as [t|]; simpl; [|by left].
  destruct (wind this !! i) as [w|]; simpl; [|by right; left].
  destruct (precipitation this !! i) as [p|]; simpl; [done|by right; right].
Qed.

(** C2, as the code has it.  On a temperatures sequence of length [n] the
    loop header runs the body at the odd indices below [n], in increasing
    order, and at no other index; there are [n / 2] of them, rounded down;
    and a render that completes produces that many axis blocks, one for each
    of these indices. *)
Theorem axis_sampling this main :
  render this = JS.Ok main →
  let n := length (temperatures this) in
  axis_indices n = JS.Ok (odd_indices n)
  ∧ (∀ i, i ∈ odd_indices n ↔ Nat.Odd i ∧ (i < n)%nat)
  ∧ Forall2 (λ i b, axis_block this i = JS.Ok b) (odd_indices n) (axes main)
  ∧ length (axes main) = (n / 2)%nat.
Proof.
  intros Hr n. split_and!.
  - apply axis_indices_spec.
  - apply elem_of_odd_indices.
  - by apply render_axes.
  - rewrite <- (Forall2_length _ _ _ (render_axes _ _ Hr)).
    apply length_odd_indices.
Qed.

Lemma skipLabel_mod this i :
  (1 ≤ label_spacing this)%Z → (1 ≤ i)%nat →
  skipLabel this i = true
  ↔ ((Z.of_nat i - 1) `mod` label_spacing this ≠ 0)%Z.
Proof.
  intros Hls Hi. unfold skipLabel, JS.rem.
  destruct (decide (label_spacing this = 0%Z)) as [?|_]; [lia|]. simpl.
  rewrite Z.rem_mod_nonneg by lia.
  rewrite negb_true_iff, Z.eqb_neq. done.
Qed.

(** C3. For a label spacing of at least 1 and a sampled index [i], the slot
    is suppressed ([skipLabel]) iff [(i - 1) mod label_spacing ≠ 0]; with a
    spacing of 1 no sampled index is suppressed; and the block of a
    suppressed slot, which is block [i / 2] of the rendered axis, has no hour
    text, no temperature text, no wind content and no precipitation amount,
    whatever the four flags are.  On the rendered block itself: each region
    that its flag lets through is empty exactly when
    [(i - 1) mod label_spacing ≠ 0], and otherwise the block shows the hour,
    the temperature and the amount of index [i] as the flags say. *)
Theorem label_suppression this i :
  (1 ≤ label_spacing this)%Z →
  i ∈ odd_indices (length (temperatures this)) →
  (skipLabel this i = true
   ↔ ((Z.of_nat i - 1) `mod` label_spacing this ≠ 0)%Z)
  ∧ (label_spacing this = 1%Z → skipLabel this i = false)
  ∧ (skipLabel this i = true →
     ∀ b, axis_block this i = JS.Ok b →
       block_hour b = None ∧ block_temperature b = None
       ∧ block_wind b = [] ∧ block_precipitation b = None)
  ∧ (∀ main, render this = JS.Ok main →
       ∃ b, axes main !! (i / 2)%nat = Some b ∧ axis_block this i = JS.Ok b)
  ∧ (∀ main b,
       render this = JS.Ok main → axes main !! (i / 2)%nat = Some b →
       let suppressed := ((Z.of_nat i - 1) `mod` label_spacing this ≠ 0)%Z in
       (hide_hours this = false → (block_hour b = None ↔ suppressed))
       ∧ (hide_temperatures this = false →
          (block_temperature b = None ↔ suppressed))
       ∧ (show_wind this ∈ ["true"; "speed"; "direction"; "barb"] →
          (block_wind b = [] ↔ suppressed))
       ∧ (show_precipitation_amounts this = true →
          (block_precipitation b = None ↔ suppressed))
       ∧ (suppressed →
          block_hour b = None ∧ block_temperature b = None
          ∧ block_wind b = [] ∧ block_precipitation b = None)
       ∧ (¬ suppressed →
          ∃ t p,
            temperatures this !! i = Some t
            ∧ precipitation this !! i = Some p
            ∧ block_hour b = (if hide_hours this then None else Some (hour t))
            ∧ block_temperature b
              = (if hide_temperatures this then None
                 else Some (temperature t))
            ∧ block_precipitation b
              = (if show_precipitation_amounts this
                 then Some (precipitationAmount p) else None))).
Proof.
  intros Hls Hi.
  assert (1 ≤ i)%nat as Hi1.
  { apply elem_of_odd_indices in Hi as [[k ->] _]. lia. }
  pose proof (skipLabel_mod this i Hls Hi1) as Hiff.
  split_and!.
  - done.
  - intros H1. apply not_true_is_false. rewrite Hiff.
    rewrite H1, Z.mod_1_r. by intros [].
  - intros Hskip b (t & w & p & _ & _ & _ & ->)%axis_block_ok.
    rewrite Hskip. simpl. rewrite !orb_true_r, !andb_false_r. done.
  - intros main Hr. by apply render_axes_at.
  - intros main b Hr Hb suppressed.
    destruct (render_axes_at _ _ _ Hr Hi) as (b' & Hb' & Hblock).
    rewrite Hb in Hb'. injection Hb' as <-.
    apply axis_block_ok in Hblock as (t & w & p & Ht & _ & Hp & ->).
    cbn [block_hour block_temperature block_wind block_precipitation].
    subst suppressed. rewrite <- Hiff.
    destruct (skipLabel this i) eqn:Hskip.
    + rewrite !orb_true_r, !andb_false_r. cbn [negb].
      by split_and!.
    + rewrite !orb_false_r, !andb_true_r.
      split_and!.
      * intros ->. done.
      * intros ->. done.
      * intros Hmode. split; [|done].
        repeat (apply elem_of_cons in Hmode as [Hm | Hmode];
                [rewrite Hm; simpl; discriminate|]).
        by apply not_elem_of_nil in Hmode.
      * intros ->. done.
      * done.
      * intros _. by exists t, p.
Qed.

(** C5. In a slot that is not suppressed, block [k] of the rendered axis,
    taken from index [2 * k + 1]: ['true'] gives the speed text, a line break
    and the direction text; ['speed'] only the speed text; ['direction'] only
    the direction text; ['barb'] one span whose hover text is the speed text,
    a space and the direction text, around a glyph rotated by the raw
    direction in degrees; any other value gives no wind content. *)
Theorem wind_modes this main k b :
  render this = JS.Ok main →
  axes main !! k = Some b →
  skipLabel this (2 * k + 1) = false →
  ∃ w, wind this !! (2 * k + 1)%nat = Some w
    ∧ (show_wind this = "true" →
       block_wind b
       = [WindText (windSpeed w); WindBreak; WindText (windDirection w)])
    ∧ (show_wind this = "speed" → block_wind b = [WindText (windSpeed w)])
    ∧ (show_wind this = "direction" →
       block_wind b = [WindText (windDirection w)])
    ∧ (show_wind this = "barb" →
       block_wind b
       = [WindBarbSpan (windSpeed w +:+ " " +:+ windDirection w)
            {| transform :=
                 "rotate(" +:+ Number_toString (windDirectionRaw w) +:+ "deg)";
               glyph := getWindBarbSVG (windSpeedRawMS w) |}])
    ∧ (show_wind this ∉ ["true"; "speed"; "direction"; "barb"] →
       block_wind b = []).
Proof.
  intros Hr Hk Hskip.
  destruct (render_axes_lookup _ _ _ _ Hr Hk) as [_ Hb].
  apply axis_block_ok in Hb as (t & w & p & _ & Hw & _ & ->).
  exists w. split; [done|]. cbn [block_wind]. rewrite Hskip.
  split_and!; intros Hmode.
  - by rewrite Hmode.
  - by rewrite Hmode.
  - by rewrite Hmode.
  - by rewrite Hmode.
  - rewrite !(bool_decide_eq_false_2 (show_wind this = _)); [done|..];
      intros Heq; apply Hmode; rewrite Heq; set_solver.
Qed.

(** *** Colour overrides *)

Lemma render_colorStyles this main :
  render this = JS.Ok main → colorStyles main = getColorStyles (colors this).
Proof.
  unfold render. destruct (condition_loop this) as [g bars].
  destruct (axis_loop this) as [blocks|e]; simpl; [|done].
  intros [= <-]. simpl. by destruct (colors this).
Qed.

(** C7. The style emitted by [render] is a function of the colour map alone:
    two renders with the same map emit the same style; without a map, or with
    an empty one, no style element is emitted; and the map with the single
    entry "sunny" ↦ "#ffcc00" emits a style whose only declaration is
    [--color-sunny: #ffcc00;]. *)
Theorem color_override_emission :
  (∀ this1 this2 main1 main2,
     colors this1 = colors this2 →
     render this1 = JS.Ok main1 → render this2 = JS.Ok main2 →
     colorStyles main1 = colorStyles main2)
  ∧ (∀ this main,
       colors this = None ∨ colors this = Some [] →
       render this = JS.Ok main → colorStyles main = None)
  ∧ (∀ this main,
       colors this = Some [("sunny", "#ffcc00")] →
       render this = JS.Ok main →
       color_vars [("sunny", "#ffcc00")] = ["--color-sunny: #ffcc00;"]
       ∧ colorStyles main
         = Some {| declarations := "--color-sunny: #ffcc00;" |}).
Proof.
  split_and!.
  - intros this1 this2 main1 main2 Hc Hr1 Hr2.
    by rewrite (render_colorStyles _ _ Hr1), (render_colorStyles _ _ Hr2), Hc.
  - intros this main Hc Hr. rewrite (render_colorStyles _ _ Hr).
    by destruct Hc as [-> | ->].
  - intros this main Hc Hr. rewrite (render_colorStyles _ _ Hr), Hc.
    split; reflexivity.
Qed.

(** *** Index accesses *)

(** C8. When the wind and precipitation sequences are at least as long as
    the temperatures sequence, every access of the axis loop,
    [temperatures[i]], [wind[i]] and [precipitation[i]] at a sampled index
    [i], finds an element, and [render] completes without an exception.
    Without that, a sampled index beyond the end of the wind or of the
    precipitation sequence makes [render] throw a [TypeError]. *)
Theorem axis_accesses_in_bounds :
  (∀ this,
     (length (temperatures this) ≤ length (wind this))%nat →
     (length (temperatures this) ≤ length (precipitation this))%nat →
     (∀ i, i ∈ odd_indices (length (temperatures this)) →
        is_Some (temperatures this !! i) ∧ is_Some (wind this !! i)
        ∧ is_Some (precipitation this !! i))
     ∧ ∃ main, render this = JS.Ok main)
  ∧ (∀ this i,
       i ∈ odd_indices (length (temperatures this)) →
       (length (wind this) ≤ i)%nat ∨ (length (precipitation this) ≤ i)%nat →
       render this = JS.Throw JS.TypeError).
Proof.
  split.
  - intros this Hw Hp.
    assert (Hin : ∀ i, i ∈ odd_indices (length (temperatures this)) →
              is_Some (temperatures this !! i) ∧ is_Some (wind this !! i)
              ∧ is_Some (precipitation this !! i)).
    { intros i [_ Hi]%elem_of_odd_indices.
      split_and!; apply lookup_lt_is_Some; lia. }
    split; [done|].
    destruct (render this) as [main|e] eqn:Hr; [by exists main|].
    apply render_throw in Hr as (j & Hj & Hthrow).
    destruct (Hin j Hj) as (Ht & Hwj & Hpj).
    apply axis_block_throw in Hthrow as [H | [H | H]];
      rewrite H in *; by apply is_Some_None in Ht || apply is_Some_None in Hwj
                         || apply is_Some_None in Hpj.
  - intros this i Hi Hshort.
    destruct (render this) as [main|[]] eqn:Hr; [|done].
    destruct (render_axes_at _ _ _ Hr Hi) as (b & _ & Hb).
    apply axis_block_ok in Hb as (t & w & p & _ & Hw & Hp & _).
    apply lookup_lt_Some in Hw, Hp. lia.
Qed.

(** *** Tooltips *)

Lemma filter_all {A} (P : A → Prop) `{∀ x, Decision (P x)} (l : list A) :
  (∀ x, x ∈ l → P x) → filter P l = l.
Proof.
  induction l as [|x l IH]; intros Hall; [done|].
  rewrite filter_cons_True by (apply Hall; left).
  f_equal. apply IH. intros y Hy. apply Hall. by right.
Qed.

Lemma filter_none {A} (P : A → Prop) `{∀ x, Decision (P x)} (l : list A) :
  (∀ x, x ∈ l → ¬ P x) → filter P l = [].
Proof.
  induction l as [|x l IH]; intros Hall; [done|].
  rewrite filter_cons_False by (apply Hall; left).
  apply IH. intros y Hy. apply Hall. by right.
Qed.

Lemma fold_destroy ts w :
  fold_left destroy ts w
  = {| next_id := next_id w;
       events := events w ++ (Destroyed ∘ @instance_id number Svg <$> ts) |}.
Proof.
  revert w. induction ts as [|t ts IH]; intros w; simpl.
  - rewrite app_nil_r. by destruct w.
  - rewrite IH. simpl. by rewrite <- app_assoc.
Qed.

Lemma tippy_spec (targets : list ConditionBar) (props : @TippyProps number Svg)
    w ts w' :
  tippy targets props w = (ts, w') →
  reference <$> ts = targets
  ∧ instance_id <$> ts = seq (next_id w) (length targets)
  ∧ Forall (λ t, instance_props t = props) ts
  ∧ next_id w' = (next_id w + length targets)%nat
  ∧ events w' = events w ++ ((λ t, Created (instance_id t) (reference t)) <$> ts).
Proof.
  revert w ts w'. induction targets as [|target rest IH]; intros w ts w'; simpl.
  - intros [= <- <-]. simpl. rewrite app_nil_r. split_and!; try done; lia.
  - destruct (tippy rest props _) as [ts1 w1] eqn:Hrest. intros [= <- <-].
    apply IH in Hrest as (Href & Hid & Hprops & Hnext & Hev).
    cbn [next_id events] in Hid, Hnext, Hev.
    rewrite !fmap_cons, Href, Hid, Hnext, Hev, <- app_assoc.
    split_and!; try done; [by constructor | simpl; lia].
Qed.

Lemma created_ids_destroyed (ts : list (@Instance number Svg)) :
  created_ids (Destroyed ∘ instance_id <$> ts) = [].
Proof. induction ts as [|t ts IH]; [done|]. simpl. exact IH. Qed.

Lemma destroyed_ids_destroyed (ts : list (@Instance number Svg)) :
  destroyed_ids (Destroyed ∘ instance_id <$> ts) = instance_id <$> ts.
Proof.
  induction ts as [|t ts IH]; [done|]. simpl. f_equal. exact IH.
Qed.

Lemma created_ids_created (ts : list (@Instance number Svg)) :
  created_ids ((λ t, Created (instance_id t) (reference t)) <$> ts)
  = instance_id <$> ts.
Proof.
  induction ts as [|t ts IH]; [done|]. simpl. f_equal. exact IH.
Qed.

Lemma destroyed_ids_created (ts : list (@Instance number Svg)) :
  destroyed_ids ((λ t, Created (instance_id t) (reference t)) <$> ts) = [].
Proof. induction ts as [|t ts IH]; [done|]. simpl. exact IH. Qed.

(** What one call of [update] does to the component and to the library. *)
Lemma update_spec this w this' w' :
  update this w = JS.Ok (this', w') →
  ∃ main,
    render this = JS.Ok main
    ∧ renderRoot this' = Some main
    ∧ reference <$> tips this' = bar main
    ∧ instance_id <$> tips this' = seq (next_id w) (length (bar main))
    ∧ Forall (λ t, instance_props t = {| appendTo := Some main; touch := "hold" |})
        (tips this')
    ∧ next_id w' = (next_id w + length (bar main))%nat
    ∧ events w'
      = events w ++ (Destroyed ∘ instance_id <$> tips this)
        ++ ((λ t, Created (instance_id t) (reference t)) <$> tips this').
Proof.
  unfold update. destruct (render this) as [main|e]; simpl; [|done].
  destruct (tippy _ _ _) as [ts w2] eqn:Htippy. intros [= <- <-].
  apply tippy_spec in Htippy as (Href & Hid & Hprops & Hnext & Hev).
  rewrite fold_destroy in Hid, Hnext, Hev. simpl in *.
  exists main. rewrite Hev, <- app_assoc. done.
Qed.

(** The invariant of the reachable states: the instances alive in the
    library are those stored in [tips], and the identities used so far are
    below the next fresh one. *)
Lemma reachable_invariant this w :
  reachable this w →
  live w = instance_id <$> tips this
  ∧ Forall (λ id, id < next_id w)%nat (created_ids (events w))
  ∧ Forall (λ id, id < next_id w)%nat (destroyed_ids (events w)).
Proof.
  induction 1 as [this Htips _ | this this' w _ IH Htips _
                 | this w this' w' _ IH Hupd].
  - rewrite Htips. split_and!; by try constructor.
  - by rewrite Htips.
  - destruct IH as (Hlive & Hcr & Hde).
    apply update_spec in Hupd as (main & _ & _ & _ & Hid & _ & Hnext & Hev).
    assert (Htips : Forall (λ id, id < next_id w)%nat (instance_id <$> tips this)).
    { rewrite <- Hlive. unfold live. rewrite Forall_forall in Hcr |- *.
      intros id [_ Hin]%list_elem_of_filter. by apply Hcr. }
    assert (Hcr' : created_ids (events w')
                   = created_ids (events w) ++ (instance_id <$> tips this')).
    { rewrite Hev. unfold created_ids. rewrite !omap_app.
      fold (created_ids (Destroyed ∘ instance_id <$> tips this)).
      rewrite created_ids_destroyed. simpl. f_equal. apply created_ids_created. }
    assert (Hde' : destroyed_ids (events w')
                   = destroyed_ids (events w) ++ (instance_id <$> tips this)).
    { rewrite Hev. unfold destroyed_ids. rewrite !omap_app.
      fold (destroyed_ids ((λ t, Created (instance_id t) (reference t))
                             <$> tips this')).
      rewrite destroyed_ids_created, app_nil_r. f_equal.
      apply destroyed_ids_destroyed. }
    split_and!.
    + unfold live. rewrite Hcr', Hde', filter_app.
      replace (filter _ (created_ids (events w))) with (@nil nat).
      * simpl. rewrite Hid. apply filter_all.
        intros id [Hge _]%elem_of_seq. rewrite elem_of_app. intros [Hin | Hin].
        -- rewrite Forall_forall in Hde. specialize (Hde _ Hin). lia.
        -- rewrite Forall_forall in Htips. specialize (Htips _ Hin). lia.
      * symmetry. apply filter_none.
        intros id Hin Hnot. apply Hnot. rewrite elem_of_app.
        destruct (decide (id ∈ destroyed_ids (events w))) as [?|Hnd]; [by left|].
        right. rewrite <- Hlive. unfold live. by apply list_elem_of_filter.
    + rewrite Hcr', Forall_app, Hnext. split.
      * eapply Forall_impl; [exact Hcr|]. simpl. lia.
      * rewrite Hid. apply Forall_seq. lia.
    + rewrite Hde', Forall_app, Hnext. split.
      * eapply Forall_impl; [exact Hde|]. simpl. lia.
      * eapply Forall_impl; [exact Htips|]. simpl. lia.
Qed.

(** C9. An update that completes, from any state the component can be in:
    the library first receives one destroy per stored instance and only then
    creates the new instances; at that point every instance created by an
    earlier update is destroyed; the new instances are fresh, pairwise
    distinct, and bound one by one to the segments of the bar just rendered;
    and the instances alive afterwards are exactly the stored ones. *)
Theorem tooltip_rebuild this w this' w' :
  reachable this w →
  update this w = JS.Ok (this', w') →
  ∃ main,
    render this = JS.Ok main
    ∧ renderRoot this' = Some main
    ∧ events w'
      = events w ++ (Destroyed ∘ instance_id <$> tips this)
        ++ ((λ t, Created (instance_id t) (reference t)) <$> tips this')
    ∧ (∀ id, id ∈ created_ids (events w) →
         id ∈ destroyed_ids (events w ++ (Destroyed ∘ instance_id <$> tips this)))
    ∧ reference <$> tips this' = bar main
    ∧ NoDup (instance_id <$> tips this')
    ∧ (∀ t, t ∈ tips this' → instance_id t ∉ created_ids (events w))
    ∧ live w' = instance_id <$> tips this'.
Proof.
  intros Hreach Hupd.
  destruct (reachable_invariant _ _ Hreach) as (Hlive & Hcr & _).
  destruct (reachable_invariant _ _ (reach_update _ _ _ _ _ _ _ _ Hreach Hupd))
    as (Hlive' & _ & _).
  destruct (update_spec _ _ _ _ Hupd)
    as (main & Hr & Hroot & Href & Hid & _ & _ & Hev).
  exists main. split_and!; try done.
  - intros id Hin. unfold destroyed_ids. rewrite omap_app, elem_of_app.
    fold (destroyed_ids (events w)).
    fold (destroyed_ids (Destroyed ∘ instance_id <$> tips this)).
    rewrite destroyed_ids_destroyed.
    destruct (decide (id ∈ destroyed_ids (events w))) as [?|Hnd]; [by left|].
    right. rewrite <- Hlive. unfold live. by apply list_elem_of_filter.
  - rewrite Hid. apply NoDup_seq.
  - intros t Ht Hin.
    assert (instance_id t ∈ seq (next_id w) (length (bar main))) as Hnew.
    { rewrite <- Hid. by apply list_elem_of_fmap_2. }
    apply elem_of_seq in Hnew as [Hge _].
    rewrite Forall_forall in Hcr. specialize (Hcr _ Hin). simpl in Hcr. lia.
Qed.

(** *** Further properties of [render] *)

Lemma color_vars_from (entries : ColorMap) (vars : list string) :
  fold_left (λ vars '(key, color),
               vars ++ ["--color-" +:+ key +:+ ": " +:+ color +:+ ";"])
    entries vars
  = vars ++ (color_declaration <$> entries).
Proof.
  revert vars. induction entries as [|[key color] entries IH]; intros vars; simpl.
  - by rewrite app_nil_r.
  - rewrite IH, <- app_assoc. done.
Qed.

(** X1. A completed render emits a style element exactly when a colour map
    is set and has an entry; its rule then holds one declaration
    [--color-<key>: <color>;] per entry, in the order of the map, separated
    by single spaces. *)
Theorem color_styles_entries this main :
  render this = JS.Ok main →
  (colorStyles main = None ↔ colors this = None ∨ colors this = Some [])
  ∧ (∀ entries, colors this = Some entries → entries ≠ [] →
       color_vars entries = color_declaration <$> entries
       ∧ colorStyles main
         = Some {| declarations := JS.join " " (color_declaration <$> entries) |}).
Proof.
  intros Hr. rewrite (render_colorStyles _ _ Hr). split.
  - destruct (colors this) as [[|entry entries]|]; simpl.
    + split; [by right|done].
    + split; [done|]. by intros [|].
    + split; [by left|done].
  - intros entries -> Hne.
    assert (Hvars : color_vars entries = color_declaration <$> entries).
    { unfold color_vars. by rewrite color_vars_from. }
    split; [done|]. unfold getColorStyles.
    destruct entries as [|entry entries]; [done|]. simpl length.
    destruct (decide _) as [?|_]; [done|]. by rewrite Hvars.
Qed.

(** X2. A slot that is not suppressed shows the data of its own index: the
    hour and the temperature of [temperatures[2k+1]] unless [hide_hours],
    respectively [hide_temperatures], is set, and the amount of
    [precipitation[2k+1]] exactly when [show_precipitation_amounts] is
    set. *)
Theorem visible_slot_contents this main k b :
  render this = JS.Ok main →
  axes main !! k = Some b →
  skipLabel this (2 * k + 1) = false →
  ∃ t p,
    temperatures this !! (2 * k + 1)%nat = Some t
    ∧ precipitation this !! (2 * k + 1)%nat = Some p
    ∧ block_hour b = (if hide_hours this then None else Some (hour t))
    ∧ block_temperature b
      = (if hide_temperatures this then None else Some (temperature t))
    ∧ block_precipitation b
      = (if show_precipitation_amounts this then Some (precipitationAmount p)
         else None).
Proof.
  intros Hr Hk Hskip.
  destruct (render_axes_lookup _ _ _ _ Hr Hk) as [_ Hb].
  apply axis_block_ok in Hb as (t & w & p & Ht & _ & Hp & ->).
  exists t, p. cbn [block_hour block_temperature block_precipitation].
  rewrite Hskip, !orb_false_r, andb_true_r. done.
Qed.

(** X3. With a label spacing of 0 the remainder is [NaN], which differs from
    0: every slot is suppressed, and every block of a completed render is
    empty, whatever the flags are. *)
Theorem label_spacing_zero this main :
  label_spacing this = 0%Z →
  render this = JS.Ok main →
  (∀ i, skipLabel this i = true)
  ∧ (∀ b, b ∈ axes main →
       block_hour b = None ∧ block_temperature b = None
       ∧ block_wind b = [] ∧ block_precipitation b = None).
Proof.
  intros Hzero Hr.
  assert (Hskip : ∀ i, skipLabel this i = true).
  { intros i. unfold skipLabel, JS.rem. rewrite Hzero. done. }
  split; [done|]. intros b [k Hk]%list_elem_of_lookup_1.
  destruct (render_axes_lookup _ _ _ _ Hr Hk) as [_ Hb].
  apply axis_block_ok in Hb as (t & w & p & _ & _ & _ & ->).
  rewrite Hskip. simpl. rewrite !orb_true_r, !andb_false_r. done.
Qed.




Lemma odd_index_bound n i :
  i ∈ odd_indices n → (i < 2 * (n / 2))%nat.
Proof.
  intros (k & -> & Hk)%list_elem_of_fmap.
  apply elem_of_seq in Hk. lia.
Qed.

Lemma last_odd_index n :
  (0 < n / 2)%nat → (2 * (n / 2) - 1)%nat ∈ odd_indices n.
Proof.
  intros Hpos. apply list_elem_of_fmap. exists (n / 2 - 1)%nat.
  split; [lia|]. apply elem_of_seq. lia.
Qed.

(** X5. [render] completes exactly when the wind and the precipitation
    sequences reach past the last sampled index, that is when each has at
    least [2 * floor(n / 2)] elements for [n] temperatures; otherwise it
    throws a [TypeError].  The flags and the conditions play no part. *)
Theorem render_completes_iff this :
  let n := length (temperatures this) in
  ((∃ main, render this = JS.Ok main)
   ↔ (2 * (n / 2) ≤ length (wind this))%nat
     ∧ (2 * (n / 2) ≤ length (precipitation this))%nat)
  ∧ (render this = JS.Throw JS.TypeError
     ↔ ¬ ((2 * (n / 2) ≤ length (wind this))%nat
          ∧ (2 * (n / 2) ≤ length (precipitation this))%nat)).
Proof.
  intros n.
  assert (Hok : ∀ main, render this = JS.Ok main →
            (2 * (n / 2) ≤ length (wind this))%nat
            ∧ (2 * (n / 2) ≤ length (precipitation this))%nat).
  { intros main Hr. destruct (decide (0 < n / 2)%nat) as [Hpos|?]; [|lia].
    destruct (render_axes_at _ _ _ Hr (last_odd_index n Hpos)) as (b & _ & Hb).
    apply axis_block_ok in Hb as (t & w & p & _ & Hw & Hp & _).
    apply lookup_lt_Some in Hw, Hp. lia. }
  assert (Hthrow : ∀ e, render this = JS.Throw e →
            ¬ ((2 * (n / 2) ≤ length (wind this))%nat
               ∧ (2 * (n / 2) ≤ length (precipitation this))%nat)).
  { intros e (j & Hj & Hb)%render_throw [Hw Hp].
    pose proof (odd_index_bound _ _ Hj) as Hlt. fold n in Hlt.
    apply elem_of_odd_indices in Hj as [_ Hjn].
    apply axis_block_throw in Hb as [H | [H | H]];
      apply lookup_ge_None in H; fold n in Hjn; lia. }
  destruct (render this) as [main|[]] eqn:Hr.
  - split; split; [by eauto | by eauto | done |].
    intros Hnot. destruct Hnot. by eapply Hok.
  - split; split; [by intros [? ?] | | by eauto | done].
    intros Hlen. by destruct (Hthrow _ eq_refl).
Qed.

(** X6. With at most one temperature no index is sampled: [render] completes
    whatever the wind and precipitation sequences hold, and the axis is
    empty; without conditions the bar is empty too. *)
Theorem few_temperatures this :
  (length (temperatures this) ≤ 1)%nat →
  ∃ main, render this = JS.Ok main
    ∧ axes main = []
    ∧ (conditions this = [] → bar main = []).
Proof.
  intros Hn.
  assert (Hnone : odd_indices (length (temperatures this)) = []).
  { unfold odd_indices. rewrite Nat.div_small by lia. done. }
  destruct (render this) as [main|e] eqn:Hr.
  - exists main. split; [done|]. split.
    + pose proof (render_axes _ _ Hr) as Hall. rewrite Hnone in Hall.
      by apply Forall2_nil_inv_l in Hall.
    + intros Hc. rewrite (render_bar _ _ Hr), condition_loop_spec, Hc. done.
  - apply render_throw in Hr as (j & Hj & _). rewrite Hnone in Hj.
    by apply not_elem_of_nil in Hj.
Qed.

(** While the start columns up to the end of span [i] stay within 2^53, the
    two grid lines of segment [i] are the decimal digits of its start column
    and of that column plus its duration. *)
Lemma segment_columns this i cond :
  (∀ j, (j ≤ S i)%nat →
        (Z.abs (start_column (conditions this) j) ≤ 2 ^ 53)%Z) →
  conditions this !! i = Some cond →
  gridColumnStart
    (style (condition_bar this (cursor_at (conditions this) i) cond))
  = pretty (start_column (conditions this) i)
  ∧ gridColumnEnd
      (style (condition_bar this (cursor_at (conditions this) i) cond))
    = pretty (start_column (conditions this) i + cond.2)%Z.
Proof.
  intros Hb Hi. unfold condition_bar.
  cbn [style gridColumnStart gridColumnEnd].
  rewrite cursor_exact by (intros j Hj; apply Hb; lia).
  pose proof (Hb i ltac:(lia)) as Hbi. pose proof (Hb (S i) ltac:(lia)) as HbS.
  rewrite (start_column_S _ _ _ Hi) in HbS. cbn [JS.add].
  rewrite round_exact by done. by rewrite !String_decimal by done.
Qed.

(** X7. With positive durations whose sum stays below 2^53 the segments of
    the rendered bar are laid out in order without overlap: a segment ends
    on a grid line at or before the one on which any later segment starts,
    and no two segments have the same [gridColumnStart]. *)
Theorem segments_ordered this main :
  Forall (λ cond, (0 < cond.2)%Z) (conditions this) →
  (1 + total_duration (conditions this) ≤ 2 ^ 53)%Z →
  render this = JS.Ok main →
  (∀ i j segi segj,
     (i < j)%nat →
     bar main !! i = Some segi → bar main !! j = Some segj →
     ∃ e s : Z,
       gridColumnEnd (style segi) = pretty e
       ∧ gridColumnStart (style segj) = pretty s
       ∧ (e ≤ s)%Z)
  ∧ NoDup ((λ seg, gridColumnStart (style seg)) <$> bar main).
Proof.
  intros Hpos Hbound Hr.
  assert (Hb : ∀ j, (Z.abs (start_column (conditions this) j) ≤ 2 ^ 53)%Z).
  { intros j. pose proof (start_column_range _ j Hpos). lia. }
  assert (Hord : ∀ i j ci cj,
            (i < j)%nat →
            conditions this !! i = Some ci → conditions this !! j = Some cj →
            (start_column (conditions this) i + ci.2
             ≤ start_column (conditions this) j)%Z).
  { intros i j ci cj Hij Hi Hj. rewrite <- (start_column_S _ _ _ Hi).
    apply start_column_le; [done|lia|].
    apply lookup_lt_Some in Hj. lia. }
  split.
  - intros i j segi segj Hij. rewrite !(render_bar_lookup _ _ _ Hr).
    destruct (conditions this !! i) as [ci|] eqn:Hi; [|done].
    destruct (conditions this !! j) as [cj|] eqn:Hj; [|done].
    intros [= <-] [= <-].
    destruct (segment_columns this i ci) as [_ He]; [by auto|done|].
    destruct (segment_columns this j cj) as [Hs _]; [by auto|done|].
    eexists _, _. split; [exact He|]. split; [exact Hs|]. by eapply Hord.
  - assert (Hlt : ∀ i j ci cj,
              (i < j)%nat →
              conditions this !! i = Some ci → conditions this !! j = Some cj →
              start_column (conditions this) i
              ≠ start_column (conditions this) j).
    { intros i j ci cj Hij Hi Hj. specialize (Hord _ _ _ _ Hij Hi Hj).
      rewrite Forall_lookup in Hpos. specialize (Hpos _ _ Hi).
      simpl in Hpos. lia. }
    apply NoDup_alt. intros i j col. rewrite !list_lookup_fmap.
    rewrite !(render_bar_lookup _ _ _ Hr).
    destruct (conditions this !! i) as [ci|] eqn:Hi; [|done].
    destruct (conditions this !! j) as [cj|] eqn:Hj; [|done].
    cbn [fmap option_fmap option_map].
    destruct (segment_columns this i ci) as [-> _]; [by auto|done|].
    destruct (segment_columns this j cj) as [-> _]; [by auto|done|].
    intros [= <-] [= Heq]. apply (inj pretty) in Heq.
    destruct (Nat.lt_trichotomy i j) as [Hij | [-> | Hji]]; [|done|].
    + by destruct (Hlt _ _ _ _ Hij Hi Hj).
    + by destruct (Hlt _ _ _ _ Hji Hj Hi).
Qed.

(** X8. Every segment of a completed render carries the label of its own
    class as tooltip content; in label mode its text is that same value, and
    in icon mode its child is the icon of its class, whose identifier always
    starts with ['mdi:']. *)
Theorem segment_children this main seg :
  render this = JS.Ok main →
  seg ∈ bar main →
  data_tippy_content seg = labels this !! class_ seg
  ∧ child seg
    = (if icons this then ConditionIcon (resolve_icon ICONS (class_ seg))
       else ConditionLabel (data_tippy_content seg))
  ∧ ∃ rest, resolve_icon ICONS (class_ seg) = "mdi:" +:+ rest.
Proof.
  intros Hr [i Hi]%list_elem_of_lookup_1.
  rewrite (render_bar_lookup _ _ _ Hr) in Hi.
  destruct (conditions this !! i) as [cond|]; [|done].
  injection Hi as <-. split_and!; [done|done|].
  unfold resolve_icon. destruct (JS.strict_eq _ _); eauto.
Qed.

(** X13. The global flags hold in every block of a completed render, shown
    or suppressed: with [hide_hours] no block has an hour, with
    [hide_temperatures] none has a temperature, without
    [show_precipitation_amounts] none has an amount, and with [show_wind]
    outside its four modes none has wind content. *)
Theorem global_flags this main b :
  render this = JS.Ok main →
  b ∈ axes main →
  (hide_hours this = true → block_hour b = None)
  ∧ (hide_temperatures this = true → block_temperature b = None)
  ∧ (show_precipitation_amounts this = false → block_precipitation b = None)
  ∧ (show_wind this ∉ ["true"; "speed"; "direction"; "barb"] →
     block_wind b = []).
Proof.
  intros Hr [k Hk]%list_elem_of_lookup_1.
  destruct (render_axes_lookup _ _ _ _ Hr Hk) as [_ Hb].
  apply axis_block_ok in Hb as (t & w & p & _ & _ & _ & ->).
  cbn [block_hour block_temperature block_precipitation block_wind].
  split_and!.
  - by intros ->.
  - by intros ->.
  - by intros ->.
  - intros Hmode.
    rewrite !(bool_decide_eq_false_2 (show_wind this = _)); [done|..];
      intros Heq; apply Hmode; rewrite Heq; set_solver.
Qed.

(** X14. Durations are not validated.  Whatever integers they are, as long
    as the start columns up to the end of span [i] stay within 2^53 in
    magnitude, segment [i] of a completed render starts on line
    [start_column conds i] and ends on that line plus its duration; a
    duration of 0 gives a segment whose two grid lines are the same text,
    and any other duration two different texts. *)
Theorem unvalidated_durations this main i cond :
  render this = JS.Ok main →
  conditions this !! i = Some cond →
  (∀ j, (j ≤ S i)%nat →
        (Z.abs (start_column (conditions this) j) ≤ 2 ^ 53)%Z) →
  ∃ seg, bar main !! i = Some seg
    ∧ gridColumnStart (style seg) = pretty (start_column (conditions this) i)
    ∧ gridColumnEnd (style seg)
      = pretty (start_column (conditions this) i + cond.2)%Z
    ∧ (gridColumnStart (style seg) = gridColumnEnd (style seg)
       ↔ cond.2 = 0%Z).
Proof.
  intros Hr Hi Hb.
  exists (condition_bar this (cursor_at (conditions this) i) cond).
  rewrite (render_bar_lookup _ _ _ Hr), Hi.
  destruct (segment_columns this i cond Hb Hi) as [Hs He].
  split_and!; try done. rewrite Hs, He. split.
  - intros Heq%(inj pretty). lia.
  - intros ->. by rewrite Z.add_0_r.
Qed.

(** *** Further properties of [update] *)

Lemma render_private_fields this root ts :
  render (set_tips (set_renderRoot this root) ts) = render this.
Proof. reflexivity. Qed.

(** X9. An update creates exactly one tooltip per condition span: the
    instance at position [i] is bound to the segment whose class is the key
    of span [i] and whose tooltip content is the label of that key, and its
    identity is the [i]-th fresh one. *)
Theorem one_tooltip_per_condition this w this' w' :
  update this w = JS.Ok (this', w') →
  length (tips this') = length (conditions this)
  ∧ ∀ i cond, conditions this !! i = Some cond →
      ∃ t, tips this' !! i = Some t
        ∧ class_ (reference t) = cond.1
        ∧ data_tippy_content (reference t) = labels this !! cond.1
        ∧ instance_id t = (next_id w + i)%nat.
Proof.
  intros (main & Hr & _ & Href & Hid & _ & _ & _)%update_spec.
  assert (Hlen : length (tips this') = length (conditions this)).
  { rewrite <- (length_fmap reference), Href, (render_bar _ _ Hr).
    rewrite condition_loop_spec. simpl. by rewrite length_imap. }
  split; [done|]. intros i cond Hi.
  destruct (lookup_lt_is_Some_2 (tips this') i) as [t Ht].
  { rewrite Hlen. by eapply lookup_lt_Some. }
  exists t. split; [done|].
  assert (Hseg : Some (reference t) = bar main !! i).
  { by rewrite <- Href, list_lookup_fmap, Ht. }
  rewrite (render_bar_lookup _ _ _ Hr), Hi in Hseg. injection Hseg as ->.
  split_and!; [done|done|].
  assert (Hidt : Some (instance_id t)
                 = seq (next_id w) (length (bar main)) !! i).
  { by rewrite <- Hid, list_lookup_fmap, Ht. }
  rewrite lookup_seq_lt in Hidt; [by injection Hidt|].
  rewrite <- Href, length_fmap. by eapply lookup_lt_Some.
Qed.

(** X10. Updating again with no property changed is not a no-op: the update
    completes, renders the same tree, destroys every instance of the first
    update and creates as many new ones on the same segments, with
    identities moved up by their number. *)
Theorem update_again this w this1 w1 :
  update this w = JS.Ok (this1, w1) →
  ∃ this2 w2,
    update this1 w1 = JS.Ok (this2, w2)
    ∧ renderRoot this2 = renderRoot this1
    ∧ reference <$> tips this2 = reference <$> tips this1
    ∧ instance_id <$> tips this2
      = (λ id, id + length (tips this1))%nat <$> (instance_id <$> tips this1)
    ∧ events w2
      = events w1 ++ (Destroyed ∘ instance_id <$> tips this1)
        ++ ((λ t, Created (instance_id t) (reference t)) <$> tips this2).
Proof.
  intros Hupd.
  pose proof (update_spec _ _ _ _ Hupd)
    as (main & Hr & Hroot & Href & Hid & _ & Hnext & _).
  assert (Hr1 : render this1 = JS.Ok main).
  { revert Hupd. unfold update. rewrite Hr. simpl.
    destruct (tippy _ _ _) as [ts w2]. intros [= <- _].
    by rewrite render_private_fields. }
  destruct (update this1 w1) as [[this2 w2]|e] eqn:Hupd2.
  - exists this2, w2.
    apply update_spec in Hupd2
      as (main2 & Hr2 & Hroot2 & Href2 & Hid2 & _ & _ & Hev2).
    rewrite Hr1 in Hr2. injection Hr2 as <-.
    split_and!; [done | congruence | congruence | | done].
    rewrite Hid2, Hid, Hnext, <- (length_fmap reference (tips this1)), Href.
    replace (next_id w + length (bar main))%nat
      with (length (bar main) + next_id w)%nat by lia.
    rewrite <- fmap_add_seq. apply list_fmap_ext. intros _ id _. simpl. lia.
  - revert Hupd2. unfold update. rewrite Hr1. simpl.
    by destruct (tippy _ _ _).
Qed.

Lemma created_ids_lookup (evs : list TippyEvent) id :
  id ∈ created_ids evs → ∃ i target, evs !! i = Some (Created id target).
Proof.
  intros (e & He & Hid)%list_elem_of_omap.
  destruct e as [id' target|]; [|done]. injection Hid as ->.
  apply list_elem_of_lookup_1 in He as [i Hi]. by exists i, target.
Qed.

(** X11. In every state the component can reach, the identities created so
    far are 0, 1, 2, ... in this order, each created once; no instance has
    been destroyed twice; and every destroy comes after the creation of the
    instance it destroys. *)
Theorem tooltip_trace_invariants this w :
  reachable this w →
  created_ids (events w) = seq 0 (next_id w)
  ∧ NoDup (destroyed_ids (events w))
  ∧ (∀ j id, events w !! j = Some (Destroyed id) →
       ∃ i target, (i < j)%nat ∧ events w !! i = Some (Created id target)).
Proof.
  induction 1 as [this Htips _ | this this' w _ IH _ _
                 | this w this' w' Hreach IH Hupd].
  - split_and!; [done | apply NoDup_nil_2 | by intros j id].
  - done.
  - destruct IH as (Hcr & Hnd & Hord).
    destruct (reachable_invariant _ _ Hreach) as (Hlive & _ & _).
    apply update_spec in Hupd as (main & _ & _ & _ & Hid & _ & Hnext & Hev).
    split_and!.
    + rewrite Hev. unfold created_ids. rewrite !omap_app.
      fold (created_ids (events w)).
      fold (created_ids (Destroyed ∘ instance_id <$> tips this)).
      fold (created_ids ((λ t, Created (instance_id t) (reference t))
                           <$> tips this')).
      rewrite created_ids_destroyed, created_ids_created, Hcr, Hid, Hnext.
      simpl. by rewrite seq_app.
    + rewrite Hev. unfold destroyed_ids. rewrite !omap_app.
      fold (destroyed_ids (events w)).
      fold (destroyed_ids (Destroyed ∘ instance_id <$> tips this)).
      fold (destroyed_ids ((λ t, Created (instance_id t) (reference t))
                             <$> tips this')).
      rewrite destroyed_ids_destroyed, destroyed_ids_created, app_nil_r.
      rewrite <- Hlive. apply NoDup_app. split_and!; [done| |].
      * intros id Hin [Hnot _]%list_elem_of_filter. done.
      * unfold live. apply NoDup_filter. rewrite Hcr. apply NoDup_seq.
    + intros j id. rewrite Hev.
      intros [Hj | [Hge Hj]]%lookup_app_Some.
      * destruct (Hord _ _ Hj) as (i & target & Hij & Hi).
        exists i, target. split; [done|]. by apply lookup_app_l_Some.
      * apply lookup_app_Some in Hj as [Hj | [_ Hj]].
        -- assert (Hin : id ∈ created_ids (events w)).
           { rewrite list_lookup_fmap in Hj.
             destruct (tips this !! _) as [t|] eqn:Ht; [|done].
             injection Hj as <-.
             assert (instance_id t ∈ live w) as Hl.
             { rewrite Hlive. apply list_elem_of_fmap_2.
               by eapply list_elem_of_lookup_2. }
             by apply list_elem_of_filter in Hl as [_ ?]. }
           apply created_ids_lookup in Hin as (i & target & Hi).
           exists i, target. split; [|by apply lookup_app_l_Some].
           apply lookup_lt_Some in Hi. lia.
        -- rewrite list_lookup_fmap in Hj.
           by destruct (tips this' !! _).
Qed.

(** X12. In every state the component can reach, the stored instances are
    bound, in order, to the segments last rendered into the shadow root, with
    that root's main element as [appendTo] and ['hold'] as [touch]; before
    the first update nothing is stored and the library has not been
    called. *)
Theorem tips_follow_renderRoot this w :
  reachable this w →
  match renderRoot this with
  | None => tips this = [] ∧ events w = []
  | Some main =>
      reference <$> tips this = bar main
      ∧ Forall (λ t, instance_props t
                     = {| appendTo := Some main; touch := "hold" |})
          (tips this)
  end.
Proof.
  induction 1 as [this Htips Hroot | this this' w _ IH Htips Hroot
                 | this w this' w' _ _ Hupd].
  - by rewrite Hroot.
  - by rewrite Hroot, Htips.
  - apply update_spec in Hupd as (main & _ & -> & Href & _ & Hprops & _).
    done.
Qed.

End Properties.

(** ** The properties on the sample data *)



(** C2, as the spec has it, fails: two temperatures give one axis block,
    from index 1, and not floor((2-1)/2) = 0 blocks. *)
Lemma axis_block_count_counterexample :
  length (temperatures (Sample.bar_with [] 2)) = 2%nat
  ∧ match Sample.render (Sample.bar_with [] 2) with
    | JS.Ok main =>
        axes main
        = [ {| block_hour := Some "1"; block_temperature := Some 1%Z;
               block_wind := []; block_precipitation := None |} ]
        ∧ Z.of_nat (length (axes main)) ≠ ((2 - 1) `div` 2)%Z
    | JS.Throw _ => False
    end.
Proof. split; [reflexivity|]. vm_compute. split; [reflexivity|discriminate]. Qed.

Lemma axis_sampling_witness :
  ∃ main,
    Sample.render (Sample.bar_with [] 4) = JS.Ok main
    ∧ axis_indices 4 = JS.Ok [1; 3]%nat
    ∧ length (axes main) = 2%nat.
Proof.
  eexists. split; [reflexivity|].
  destruct (axis_sampling Sample.large_toString Sample.Number_toString Sample.getWindBarbSVG
              Sample.ICONS (Sample.bar_with [] 4) _ eq_refl)
    as (Hidx & _ & _ & Hlen).
  split; [exact Hidx | exact Hlen].
Defined.

Lemma label_suppression_witness :
  (1 ≤ label_spacing (Sample.make [] 6 "true" 4 None))%Z
  ∧ 3%nat ∈ odd_indices (length (temperatures (Sample.make [] 6 "true" 4 None)))
  ∧ skipLabel (Sample.make [] 6 "true" 4 None) 3 = true
  ∧ ∃ main b,
      Sample.render (Sample.make [] 6 "true" 4 None) = JS.Ok main
      ∧ axes main !! 1%nat = Some b
      ∧ block_hour b = None ∧ block_temperature b = None
      ∧ block_wind b = [] ∧ block_precipitation b = None.
Proof.
  assert (Hls : (1 ≤ label_spacing (Sample.make [] 6 "true" 4 None))%Z)
    by (simpl; lia).
  assert (Hi : 3%nat ∈ odd_indices
                 (length (temperatures (Sample.make [] 6 "true" 4 None)))).
  { apply (list_elem_of_lookup_2 _ 1%nat). reflexivity. }
  destruct (label_suppression Sample.large_toString Sample.Number_toString Sample.getWindBarbSVG
              Sample.ICONS (Sample.make [] 6 "true" 4 None) 3 Hls Hi)
    as (Hiff & _ & Hsup & Hslot & _).
  assert (Hskip : skipLabel (Sample.make [] 6 "true" 4 None) 3 = true).
  { apply Hiff. vm_compute. discriminate. }
  split; [exact Hls|]. split; [exact Hi|]. split; [exact Hskip|].
  eexists. destruct (Hslot _ eq_refl) as (b & Hb & Hblock).
  exists b. split; [reflexivity|]. split; [exact Hb|].
  exact (Hsup Hskip b Hblock).
Defined.

(** C4, as the spec has it, fails: the key "tornado" is not in the labels
    mapping, and the segment's tooltip content and label text are
    [undefined], not "tornado". *)
Lemma unknown_label_counterexample :
  JS.own (labels (Sample.bar_with [("tornado", 2%Z)] 0)) !! "tornado" = None
  ∧ match Sample.render (Sample.bar_with [("tornado", 2%Z)] 0) with
    | JS.Ok main =>
        bar main
        = [ {| class_ := "tornado";
               style := {| gridColumnStart := "1"; gridColumnEnd := "3" |};
               data_tippy_content := None;
               child := ConditionLabel None |} ]
        ∧ ∀ seg, seg ∈ bar main →
            data_tippy_content seg ≠ Some (JS.Str "tornado")
            ∧ child seg ≠ ConditionLabel (Some (JS.Str "tornado"))
    | JS.Throw _ => False
    end.
Proof.
  split; [reflexivity|]. vm_compute. split; [reflexivity|].
  intros seg Hseg. apply list_elem_of_singleton in Hseg as ->. by split.
Qed.

Lemma unknown_label_segment_witness :
  (conditions (Sample.bar_with [("tornado", 2%Z); ("toString", 1%Z)] 0) !! 1%nat
   = Some ("toString", 1%Z)
   ∧ JS.own (labels (Sample.bar_with [("tornado", 2%Z); ("toString", 1%Z)] 0))
       !! "toString" = None
   ∧ ∃ seg,
       (condition_loop Sample.large_toString Sample.ICONS
          (Sample.bar_with [("tornado", 2%Z); ("toString", 1%Z)] 0)).2
         !! 1%nat = Some seg
       ∧ class_ seg = "toString"
       ∧ data_tippy_content seg
         = Some (JS.Other "function toString() { [native code] }"))
  ∧ (conditions (Sample.bar_with [("tornado", 2%Z); ("toString", 1%Z)] 0) !! 0%nat
     = Some ("tornado", 2%Z)
     ∧ JS.own (labels (Sample.bar_with [("tornado", 2%Z); ("toString", 1%Z)] 0))
         !! "tornado" = None
     ∧ JS.inherited
         (labels (Sample.bar_with [("tornado", 2%Z); ("toString", 1%Z)] 0))
         !! "tornado" = None
     ∧ ∃ seg,
         (condition_loop Sample.large_toString Sample.ICONS
            (Sample.bar_with [("tornado", 2%Z); ("toString", 1%Z)] 0)).2
           !! 0%nat = Some seg
         ∧ class_ seg = "tornado" ∧ data_tippy_content seg = None
         ∧ child seg = ConditionLabel None).
Proof.
  split.
  - split; [reflexivity|]. split; [reflexivity|].
    destruct (unknown_label_segment Sample.large_toString
                Sample.Number_toString Sample.getWindBarbSVG Sample.ICONS
                (Sample.bar_with [("tornado", 2%Z); ("toString", 1%Z)] 0) 1
                ("toString", 1%Z) eq_refl eq_refl)
      as (seg & Hseg & _ & Hclass & Htip & _).
    exists seg. split; [exact Hseg|]. split; [exact Hclass | exact Htip].
  - split; [reflexivity|]. split; [reflexivity|]. split; [reflexivity|].
    destruct (unknown_label_segment Sample.large_toString
                Sample.Number_toString Sample.getWindBarbSVG Sample.ICONS
                (Sample.bar_with [("tornado", 2%Z); ("toString", 1%Z)] 0) 0
                ("tornado", 2%Z) eq_refl eq_refl)
      as (seg & Hseg & _ & Hclass & _ & _ & Hnone).
    destruct (Hnone eq_refl) as [Htip Hchild].
    exists seg. split; [exact Hseg|]. split; [exact Hclass|].
    split; [exact Htip | exact (Hchild eq_refl)].
Defined.

Lemma wind_modes_witness :
  ∃ main b,
    Sample.render (Sample.make [] 2 "barb" 1 None) = JS.Ok main
    ∧ axes main !! 0%nat = Some b
    ∧ skipLabel (Sample.make [] 2 "barb" 1 None) (2 * 0 + 1) = false
    ∧ block_wind b
      = [WindBarbSpan "5 SW" {| transform := "rotate(225deg)"; glyph := 5%Z |}].
Proof.
  eexists. eexists. split; [reflexivity|]. split; [reflexivity|].
  split; [reflexivity|].
  destruct (wind_modes Sample.large_toString Sample.Number_toString Sample.getWindBarbSVG Sample.ICONS
              (Sample.make [] 2 "barb" 1 None) _ 0 _ eq_refl eq_refl eq_refl)
    as (w & Hw & _ & _ & _ & Hbarb & _).
  injection Hw as <-. exact (Hbarb eq_refl).
Defined.

Lemma icon_resolution_witness :
  Sample.ICONS !! "sunny" = Some (JS.Str "sunny")
  ∧ resolve_icon Sample.ICONS "sunny" = "mdi:weather-sunny"
  ∧ Sample.ICONS !! "clear-night" ≠ Some (JS.Str "clear-night")
  ∧ resolve_icon Sample.ICONS "clear-night" = "mdi:night".
Proof.
  assert (H1 : Sample.ICONS !! "sunny" = Some (JS.Str "sunny")) by reflexivity.
  assert (H2 : Sample.ICONS !! "clear-night" ≠ Some (JS.Str "clear-night"))
    by (vm_compute; discriminate).
  split; [exact H1|]. split.
  - exact (proj1 (icon_resolution Sample.large_toString
                    Sample.Number_toString Sample.getWindBarbSVG
                    Sample.ICONS "sunny") H1).
  - split; [exact H2|].
    exact (proj1 (proj2 (icon_resolution Sample.large_toString
                           Sample.Number_toString Sample.getWindBarbSVG
                           Sample.ICONS "clear-night")) H2).
Defined.

(** C10, as the spec has it, fails: "constructor" is not a key of the icon
    table, yet the lookup finds the member that the table object inherits,
    and the icon identifier is ['mdi:'] followed by the text of that
    function, not ['mdi:undefined']. *)
Lemma unknown_icon_counterexample :
  JS.own Sample.ICONS !! "constructor" = None
  ∧ Sample.ICONS !! "constructor"
    = Some (JS.Other "function Object() { [native code] }")
  ∧ resolve_icon Sample.ICONS "constructor"
    = "mdi:function Object() { [native code] }"
  ∧ resolve_icon Sample.ICONS "constructor" ≠ "mdi:undefined".
Proof. split_and!; [reflexivity | reflexivity | reflexivity | discriminate]. Qed.

Lemma unknown_icon_witness :
  JS.own Sample.ICONS !! "tornado" = None
  ∧ JS.inherited Sample.ICONS !! "tornado" = None
  ∧ Sample.ICONS !! "tornado" = None
  ∧ resolve_icon Sample.ICONS "tornado" = "mdi:undefined".
Proof.
  split; [reflexivity|]. split; [reflexivity|].
  destruct (unknown_icon Sample.large_toString Sample.Number_toString
              Sample.getWindBarbSVG Sample.ICONS "tornado" eq_refl)
    as (_ & Hnone & _).
  destruct (Hnone eq_refl) as (Hk & _ & Hicon & _).
  split; [exact Hk | exact Hicon].
Defined.

Lemma color_override_emission_witness :
  ∃ main,
    colors (Sample.make [] 0 "false" 2 (Some [("sunny", "#ffcc00")]))
    = Some [("sunny", "#ffcc00")]
    ∧ Sample.render (Sample.make [] 0 "false" 2 (Some [("sunny", "#ffcc00")]))
      = JS.Ok main
    ∧ colorStyles main = Some {| declarations := "--color-sunny: #ffcc00;" |}.
Proof.
  eexists. split; [reflexivity|]. split; [reflexivity|].
  exact (proj2 (proj2 (proj2 (color_override_emission Sample.large_toString Sample.Number_toString
                                Sample.getWindBarbSVG Sample.ICONS))
                  (Sample.make [] 0 "false" 2 (Some [("sunny", "#ffcc00")])) _
                  eq_refl eq_refl)).
Defined.

Lemma axis_accesses_in_bounds_witness :
  ((length (temperatures (Sample.bar_with [] 5))
    ≤ length (wind (Sample.bar_with [] 5)))%nat
   ∧ (length (temperatures (Sample.bar_with [] 5))
      ≤ length (precipitation (Sample.bar_with [] 5)))%nat
   ∧ ∃ main, Sample.render (Sample.bar_with [] 5) = JS.Ok main)
  ∧ (3%nat ∈ odd_indices (length (temperatures (Sample.short_wind 5 2)))
     ∧ (length (wind (Sample.short_wind 5 2)) ≤ 3)%nat
     ∧ Sample.render (Sample.short_wind 5 2) = JS.Throw JS.TypeError).
Proof.
  pose proof (axis_accesses_in_bounds Sample.large_toString Sample.Number_toString
                Sample.getWindBarbSVG Sample.ICONS) as [Hin Hout].
  split.
  - assert (H1 : (length (temperatures (Sample.bar_with [] 5))
                  ≤ length (wind (Sample.bar_with [] 5)))%nat) by (simpl; lia).
    assert (H2 : (length (temperatures (Sample.bar_with [] 5))
                  ≤ length (precipitation (Sample.bar_with [] 5)))%nat)
      by (simpl; lia).
    split; [exact H1|]. split; [exact H2|].
    exact (proj2 (Hin (Sample.bar_with [] 5) H1 H2)).
  - assert (H1 : 3%nat ∈ odd_indices (length (temperatures (Sample.short_wind 5 2)))).
    { apply (list_elem_of_lookup_2 _ 1%nat). reflexivity. }
    assert (H2 : (length (wind (Sample.short_wind 5 2)) ≤ 3)%nat) by (simpl; lia).
    split; [exact H1|]. split; [exact H2|].
    exact (Hout (Sample.short_wind 5 2) 3%nat H1 (or_introl H2)).
Defined.

Lemma tooltip_rebuild_witness :
  ∃ this1 w1 this2 w2,
    reachable Sample.large_toString Sample.Number_toString Sample.getWindBarbSVG Sample.ICONS this1 w1
    ∧ Sample.update this1 w1 = JS.Ok (this2, w2)
    ∧ instance_id <$> tips this1 = [0; 1]%nat
    ∧ events w2
      = events w1 ++ [Destroyed 0; Destroyed 1]
        ++ ((λ t, Created (instance_id t) (reference t)) <$> tips this2)
    ∧ instance_id <$> tips this2 = [2; 3]%nat
    ∧ live w2 = [2; 3]%nat.
Proof.
  destruct (Sample.update (Sample.bar_with [("sunny", 2%Z); ("rainy", 1%Z)] 0)
              tippy_init) as [[this1 w1]|e] eqn:Hupd1; [|discriminate Hupd1].
  assert (Hreach : reachable Sample.large_toString Sample.Number_toString Sample.getWindBarbSVG
                     Sample.ICONS this1 w1).
  { eapply reach_update; [|exact Hupd1]. by apply reach_init. }
  injection Hupd1 as <- <-.
  eexists _, _, _, _. split; [exact Hreach|]. split; [reflexivity|].
  destruct (tooltip_rebuild Sample.large_toString Sample.Number_toString Sample.getWindBarbSVG
              Sample.ICONS _ _ _ _ Hreach eq_refl)
    as (main & _ & _ & Hev & _ & _ & _ & _ & Hlive).
  split; [reflexivity|]. split; [exact Hev|]. split; [reflexivity|exact Hlive].
Defined.

(** ** The further properties on the sample data *)

Lemma color_styles_entries_witness :
  ∃ main,
    Sample.render
      (Sample.make [] 0 "false" 2 (Some [("sunny", "#ffcc00"); ("fog", "gray")]))
    = JS.Ok main
    ∧ colorStyles main
      = Some {| declarations := "--color-sunny: #ffcc00; --color-fog: gray;" |}.
Proof.
  eexists. split; [reflexivity|].
  exact (proj2 (proj2 (color_styles_entries Sample.large_toString Sample.Number_toString
                         Sample.getWindBarbSVG Sample.ICONS
                         (Sample.make [] 0 "false" 2
                            (Some [("sunny", "#ffcc00"); ("fog", "gray")]))
                         _ eq_refl)
                  _ eq_refl ltac:(discriminate))).
Defined.

Lemma visible_slot_contents_witness :
  ∃ main b,
    Sample.render (Sample.bar_with [] 4) = JS.Ok main
    ∧ axes main !! 1%nat = Some b
    ∧ skipLabel (Sample.bar_with [] 4) (2 * 1 + 1) = false
    ∧ block_hour b = Some "3" ∧ block_temperature b = Some 3%Z
    ∧ block_precipitation b = None.
Proof.
  eexists. eexists. split; [reflexivity|]. split; [reflexivity|].
  split; [reflexivity|].
  destruct (visible_slot_contents Sample.large_toString Sample.Number_toString Sample.getWindBarbSVG
              Sample.ICONS (Sample.bar_with [] 4) _ 1 _ eq_refl eq_refl eq_refl)
    as (t & p & Ht & Hp & Hhour & Htemp & Hprec).
  injection Ht as <-. injection Hp as <-.
  split; [exact Hhour|]. split; [exact Htemp | exact Hprec].
Defined.

Lemma label_spacing_zero_witness :
  ∃ main,
    label_spacing (Sample.make [] 4 "true" 0 None) = 0%Z
    ∧ Sample.render (Sample.make [] 4 "true" 0 None) = JS.Ok main
    ∧ skipLabel (Sample.make [] 4 "true" 0 None) 1 = true
    ∧ length (axes main) = 2%nat.
Proof.
  eexists. split; [reflexivity|]. split; [reflexivity|].
  split; [|reflexivity].
  exact (proj1 (label_spacing_zero Sample.large_toString Sample.Number_toString Sample.getWindBarbSVG
                  Sample.ICONS (Sample.make [] 4 "true" 0 None) _
                  eq_refl eq_refl) 1%nat).
Defined.


Lemma render_completes_iff_witness :
  length (temperatures (Sample.short_wind 5 4)) = 5%nat
  ∧ length (wind (Sample.short_wind 5 4)) = 4%nat
  ∧ (∃ main, Sample.render (Sample.short_wind 5 4) = JS.Ok main)
  ∧ Sample.render (Sample.short_wind 5 3) = JS.Throw JS.TypeError.
Proof.
  split; [reflexivity|]. split; [reflexivity|]. split.
  - apply (proj1 (render_completes_iff Sample.large_toString Sample.Number_toString
                    Sample.getWindBarbSVG Sample.ICONS (Sample.short_wind 5 4))).
    simpl. lia.
  - apply (proj2 (render_completes_iff Sample.large_toString Sample.Number_toString
                    Sample.getWindBarbSVG Sample.ICONS (Sample.short_wind 5 3))).
    simpl. lia.
Defined.

Lemma few_temperatures_witness :
  (length (temperatures (Sample.short_wind 1 0)) ≤ 1)%nat
  ∧ ∃ main, Sample.render (Sample.short_wind 1 0) = JS.Ok main
      ∧ axes main = [] ∧ bar main = [].
Proof.
  assert (Hn : (length (temperatures (Sample.short_wind 1 0)) ≤ 1)%nat)
    by (simpl; lia).
  split; [exact Hn|].
  destruct (few_temperatures Sample.large_toString Sample.Number_toString Sample.getWindBarbSVG
              Sample.ICONS (Sample.short_wind 1 0) Hn)
    as (main & Hr & Haxes & Hbar).
  exists main. split; [exact Hr|]. split; [exact Haxes | exact (Hbar eq_refl)].
Defined.

Lemma segments_ordered_witness :
  ∃ main,
    Forall (λ cond, (0 < cond.2)%Z)
      (conditions (Sample.bar_with [("sunny", 2%Z); ("rainy", 1%Z); ("fog", 3%Z)] 0))
    ∧ (1 + total_duration
             (conditions (Sample.bar_with
                [("sunny", 2%Z); ("rainy", 1%Z); ("fog", 3%Z)] 0))
       ≤ 2 ^ 53)%Z
    ∧ Sample.render
        (Sample.bar_with [("sunny", 2%Z); ("rainy", 1%Z); ("fog", 3%Z)] 0)
      = JS.Ok main
    ∧ NoDup ((λ seg, gridColumnStart (style seg)) <$> bar main).
Proof.
  eexists.
  assert (Hpos : Forall (λ cond : ConditionSpan, (0 < cond.2)%Z)
                   (conditions (Sample.bar_with
                      [("sunny", 2%Z); ("rainy", 1%Z); ("fog", 3%Z)] 0))).
  { repeat constructor. }
  assert (Hbound : (1 + total_duration
                          (conditions (Sample.bar_with
                             [("sunny", 2%Z); ("rainy", 1%Z); ("fog", 3%Z)] 0))
                    ≤ 2 ^ 53)%Z).
  { vm_compute. discriminate. }
  split; [exact Hpos|]. split; [exact Hbound|]. split; [reflexivity|].
  exact (proj2 (segments_ordered Sample.large_toString
                  Sample.Number_toString Sample.getWindBarbSVG Sample.ICONS
                  (Sample.bar_with [("sunny", 2%Z); ("rainy", 1%Z); ("fog", 3%Z)] 0)
                  _ Hpos Hbound eq_refl)).
Defined.

Lemma segment_children_witness :
  ∃ main seg,
    Sample.render (Sample.bar_with [("sunny", 2%Z)] 0) = JS.Ok main
    ∧ seg ∈ bar main
    ∧ data_tippy_content seg = Some (JS.Str "Sun")
    ∧ child seg = ConditionLabel (Some (JS.Str "Sun")).
Proof.
  eexists. eexists. split; [reflexivity|].
  assert (Hin : {| class_ := "sunny";
                   style := {| gridColumnStart := "1"; gridColumnEnd := "3" |};
                   data_tippy_content := Some (JS.Str "Sun");
                   child := ConditionLabel (Some (JS.Str "Sun")) |}
                ∈ [ {| class_ := "sunny";
                       style := {| gridColumnStart := "1"; gridColumnEnd := "3" |};
                       data_tippy_content := Some (JS.Str "Sun");
                       child := ConditionLabel (Some (JS.Str "Sun")) |} ])
    by apply list_elem_of_here.
  split; [exact Hin|].
  destruct (segment_children Sample.large_toString Sample.Number_toString Sample.getWindBarbSVG
              Sample.ICONS (Sample.bar_with [("sunny", 2%Z)] 0) _ _ eq_refl Hin)
    as (Htip & Hchild & _).
  split; [exact Htip | exact Hchild].
Defined.

Lemma one_tooltip_per_condition_witness :
  ∃ this' w',
    Sample.update (Sample.bar_with [("sunny", 2%Z); ("rainy", 1%Z)] 0) tippy_init
    = JS.Ok (this', w')
    ∧ length (tips this') = 2%nat
    ∧ (class_ ∘ reference) <$> tips this' = ["sunny"; "rainy"].
Proof.
  eexists. eexists. split; [reflexivity|].
  split; [|reflexivity].
  exact (proj1 (one_tooltip_per_condition Sample.large_toString Sample.Number_toString
                  Sample.getWindBarbSVG Sample.ICONS
                  (Sample.bar_with [("sunny", 2%Z); ("rainy", 1%Z)] 0)
                  tippy_init _ _ eq_refl)).
Defined.

Lemma update_again_witness :
  ∃ this1 w1 this2 w2,
    Sample.update (Sample.bar_with [("sunny", 2%Z); ("rainy", 1%Z)] 0) tippy_init
    = JS.Ok (this1, w1)
    ∧ Sample.update this1 w1 = JS.Ok (this2, w2)
    ∧ instance_id <$> tips this1 = [0; 1]%nat
    ∧ instance_id <$> tips this2 = [2; 3]%nat.
Proof.
  destruct (Sample.update (Sample.bar_with [("sunny", 2%Z); ("rainy", 1%Z)] 0)
              tippy_init) as [[this1 w1]|e] eqn:Hupd1; [|discriminate Hupd1].
  destruct (update_again Sample.large_toString Sample.Number_toString Sample.getWindBarbSVG
              Sample.ICONS _ _ _ _ Hupd1)
    as (this2 & w2 & Hupd2 & _ & _ & Hids & _).
  exists this1, w1, this2, w2. split; [reflexivity|]. split; [exact Hupd2|].
  injection Hupd1 as <- <-. split; [reflexivity|]. exact Hids.
Defined.

Lemma tooltip_trace_invariants_witness :
  ∃ this1 w1,
    reachable Sample.large_toString Sample.Number_toString Sample.getWindBarbSVG Sample.ICONS this1 w1
    ∧ next_id w1 = 2%nat
    ∧ created_ids (events w1) = [0; 1]%nat
    ∧ NoDup (destroyed_ids (events w1)).
Proof.
  destruct (Sample.update (Sample.bar_with [("sunny", 2%Z); ("rainy", 1%Z)] 0)
              tippy_init) as [[this1 w1]|e] eqn:Hupd1; [|discriminate Hupd1].
  assert (Hreach : reachable Sample.large_toString Sample.Number_toString Sample.getWindBarbSVG
                     Sample.ICONS this1 w1).
  { eapply reach_update; [|exact Hupd1]. by apply reach_init. }
  destruct (tooltip_trace_invariants Sample.large_toString Sample.Number_toString
              Sample.getWindBarbSVG Sample.ICONS _ _ Hreach)
    as (Hcr & Hnd & _).
  exists this1, w1. split; [exact Hreach|].
  injection Hupd1 as <- <-. split; [reflexivity|].
  split; [exact Hcr | exact Hnd].
Defined.

Lemma tips_follow_renderRoot_witness :
  ∃ this1 w1 main,
    reachable Sample.large_toString Sample.Number_toString Sample.getWindBarbSVG Sample.ICONS this1 w1
    ∧ renderRoot this1 = Some main
    ∧ reference <$> tips this1 = bar main.
Proof.
  destruct (Sample.update (Sample.bar_with [("sunny", 2%Z); ("rainy", 1%Z)] 0)
              tippy_init) as [[this1 w1]|e] eqn:Hupd1; [|discriminate Hupd1].
  assert (Hreach : reachable Sample.large_toString Sample.Number_toString Sample.getWindBarbSVG
                     Sample.ICONS this1 w1).
  { eapply reach_update; [|exact Hupd1]. by apply reach_init. }
  pose proof (tips_follow_renderRoot Sample.large_toString Sample.Number_toString
                Sample.getWindBarbSVG Sample.ICONS _ _ Hreach) as Hinv.
  injection Hupd1 as <- <-.
  eexists _, _, _. split; [exact Hreach|]. split; [reflexivity|].
  exact (proj1 Hinv).
Defined.

Lemma global_flags_witness :
  ∃ main b,
    Sample.render (Sample.make [] 2 "none" 2 None) = JS.Ok main
    ∧ b ∈ axes main
    ∧ block_precipitation b = None ∧ block_wind b = [].
Proof.
  eexists. eexists. split; [reflexivity|].
  assert (Hin : {| block_hour := Some "1"; block_temperature := Some 1%Z;
                   block_wind := []; block_precipitation := None |}
                ∈ [ {| block_hour := Some "1"; block_temperature := Some 1%Z;
                       block_wind := @nil (@WindPart Z);
                       block_precipitation := None |} ])
    by apply list_elem_of_here.
  split; [exact Hin|].
  destruct (global_flags Sample.large_toString Sample.Number_toString Sample.getWindBarbSVG
              Sample.ICONS (Sample.make [] 2 "none" 2 None) _ _ eq_refl Hin)
    as (_ & _ & Hprec & Hwind).
  split; [exact (Hprec eq_refl)|].
  apply Hwind. refine (bool_decide_unpack _ _). vm_compute. exact I.
Defined.

Lemma unvalidated_durations_witness :
  ∃ main seg,
    Sample.render (Sample.bar_with [("sunny", 2%Z); ("fog", 0%Z)] 0) = JS.Ok main
    ∧ conditions (Sample.bar_with [("sunny", 2%Z); ("fog", 0%Z)] 0) !! 1%nat
      = Some ("fog", 0%Z)
    ∧ (∀ j, (j ≤ 2)%nat →
         (Z.abs (start_column
                   (conditions (Sample.bar_with [("sunny", 2%Z); ("fog", 0%Z)] 0))
                   j) ≤ 2 ^ 53)%Z)
    ∧ bar main !! 1%nat = Some seg
    ∧ gridColumnStart (style seg) = "3" ∧ gridColumnEnd (style seg) = "3".
Proof.
  assert (Hb : ∀ j, (j ≤ 2)%nat →
            (Z.abs (start_column
                      (conditions (Sample.bar_with
                         [("sunny", 2%Z); ("fog", 0%Z)] 0)) j) ≤ 2 ^ 53)%Z).
  { intros [|[|[|j]]] Hj; [vm_compute; discriminate..|lia]. }
  destruct (unvalidated_durations Sample.large_toString
              Sample.Number_toString Sample.getWindBarbSVG
              Sample.ICONS (Sample.bar_with [("sunny", 2%Z); ("fog", 0%Z)] 0)
              _ 1 _ eq_refl eq_refl Hb)
    as (seg & Hseg & Hstart & Hend & _).
  eexists. exists seg. split; [reflexivity|]. split; [reflexivity|].
  split; [exact Hb|].
  split; [exact Hseg|]. split; [exact Hstart | exact Hend].
Defined.
